(** * AyurGraph chat client: graph payload processing and answer formatting

    A shallow embedding of the React component [App] of the AyurGraph
    client.  The repository keeps several revisions of the component.  The
    current one (the longest file, whose live code is its first 792 lines:
    [showQueryGraph], [fetchFullKG], the rendering effect,
    [processResponseText], [formatResults], [send]) is modelled at top
    level.  An earlier revision, kept in a file of its own and as
    commented-out code at the end of the current file, hands the server's
    payload to the renderer unprocessed and rejects payloads without edges;
    its [fetchFullKG] and its rendering effect are modelled in
    [Module Earlier].

    JavaScript values are modelled by [jsval]; strings are byte strings in
    UTF-8; the [Map] filled while ids are generated is a [gmap];
    [Date.now()] and [Math.random()] are read from a stream of draws, of
    which the state records how many were consumed; [setState] calls are
    applied in order to a record of the component's state cells; the
    console is a list of entries (level and first argument). *)

From Stdlib Require Import Ascii String DecimalString DecimalNat DecimalN ZArith Lia.
From stdpp Require Import gmap strings list fin_maps.

Local Open Scope string_scope.

(** ** JavaScript values *)

(** The scalar values a JSON payload can put in an [id], [from], [to],
    [label] or [group] field.  Numbers are the integers (JSON has neither
    [NaN] nor a negative zero), so strict equality [===] and the
    [SameValueZero] comparison of [Map] keys are both structural equality. *)
Inductive jsval :=
  | JUndefined
  | JNull
  | JBool (b : bool)
  | JNum (n : Z)
  | JStr (s : string).

Global Instance jsval_eq_dec : EqDecision jsval.
Proof. solve_decision. Defined.

Definition jsval_to_sum (v : jsval) : unit + (unit + (bool + (Z + string))) :=
  match v with
  | JUndefined => inl ()
  | JNull => inr (inl ())
  | JBool b => inr (inr (inl b))
  | JNum n => inr (inr (inr (inl n)))
  | JStr s => inr (inr (inr (inr s)))
  end.

Definition jsval_of_sum (x : unit + (unit + (bool + (Z + string)))) : jsval :=
  match x with
  | inl _ => JUndefined
  | inr (inl _) => JNull
  | inr (inr (inl b)) => JBool b
  | inr (inr (inr (inl n))) => JNum n
  | inr (inr (inr (inr s))) => JStr s
  end.

Global Instance jsval_countable : Countable jsval.
Proof.
  apply (inj_countable' jsval_to_sum jsval_of_sum).
  by intros [].
Defined.

(** [ToBoolean]. *)
Definition truthy (v : jsval) : bool :=
  match v with
  | JUndefined | JNull => false
  | JBool b => b
  | JNum n => negb (n =? 0)%Z
  | JStr s => negb (String.eqb s "")
  end.

(** [a && b] and [a || b] return one of their operands. *)
Definition js_and (a b : jsval) : jsval := if truthy a then b else a.
Definition js_or (a b : jsval) : jsval := if truthy a then a else b.

(** [a === b] and [a !== b]. *)
Definition strict_eq (a b : jsval) : bool := bool_decide (a = b).
Definition strict_ne (a b : jsval) : bool := negb (strict_eq a b).

(** ** Strings *)

Definition nl : string := String "010"%char "".

(** Decimal rendering of the non-negative integers that appear in template
    literals ([index], [Date.now()], [res.status]). *)
Definition dec_nat (n : nat) : string := NilEmpty.string_of_uint (Nat.to_uint n).
Definition dec_N (n : N) : string := NilEmpty.string_of_uint (N.to_uint n).

Fixpoint contains_char (c : ascii) (s : string) : bool :=
  match s with
  | EmptyString => false
  | String a s' => Ascii.eqb a c || contains_char c s'
  end.

(** ** Graph payload *)

(** A node of a [{ nodes, edges }] payload.  [size] is [JUndefined] until
    the rendering effect sets it.  The constant [font] object the effect
    attaches is read by no modelled code and is left out. *)
Record node := Node {
  node_id : jsval;
  node_label : jsval;
  node_group : jsval;
  node_size : jsval
}.

(** An edge of a payload.  The constant [arrows], [color], [font] and
    [width] attributes attached by the rendering effect are left out. *)
Record edge := Edge {
  edge_id : jsval;
  edge_from : jsval;
  edge_to : jsval;
  edge_label : jsval
}.

Global Instance node_eq_dec : EqDecision node.
Proof. solve_decision. Defined.
Global Instance edge_eq_dec : EqDecision edge.
Proof. solve_decision. Defined.

(** [{ ...node, id: v }] and friends. *)
Definition node_with_id (n : node) (v : jsval) : node :=
  Node v (node_label n) (node_group n) (node_size n).
Definition node_with_size (n : node) (v : jsval) : node :=
  Node (node_id n) (node_label n) (node_group n) v.
Definition edge_with_ends (e : edge) (i f t : jsval) : edge :=
  Edge i f t (edge_label e).

(** A processed payload, as stored in [currentGraphData] / [fullGraphData]. *)
Record graph_data := GraphData {
  gd_nodes : list node;
  gd_edges : list edge
}.

(** A payload as received.  [vis_nodes] is [None] when [nodes] is missing
    or is not an array ([showQueryGraph], [fetchFullKG] and the rendering
    effect treat both alike); [vis_edges] is [None]
    when [edges] is missing, that is [undefined] or [null] (an [edges] field
    that holds something else than an array is not modelled). *)
Record visualization := Visualization {
  vis_nodes : option (list node);
  vis_edges : option (list edge)
}.

(** ** Fresh identifiers *)

(** One reading of the clock and one of the random generator: the values
    interpolated into a generated id.  [d_random] is the text JavaScript
    prints for the double returned by [Math.random()]. *)
Record draw := Draw {
  d_now : N;
  d_random : string
}.

(** The stream of draws of a session; the state records how many were
    consumed. *)
Definition oracle := nat → draw.

(** [`${prefix}_${index}_${Date.now()}_${Math.random()}`] *)
Definition fresh_id (prefix : string) (index : nat) (d : draw) : string :=
  prefix +:+ "_" +:+ dec_nat index +:+ "_" +:+ dec_N (d_now d) +:+ "_" +:+ d_random d.

(** [Array.prototype.map] with a callback that also updates some state (here
    the [Map] of ids): the callback sees the element, its index and the
    state left by the previous elements. *)
Fixpoint array_map_st {A B St : Type} (f : A → nat → St → B * St)
    (index : nat) (l : list A) (s : St) : list B * St :=
  match l with
  | [] => ([], s)
  | x :: l' =>
      let '(y, s1) := f x index s in
      let '(ys, s2) := array_map_st f (S index) l' s1 in
      (y :: ys, s2)
  end.

(** [Array.prototype.filter] with a callback that also updates some state
    (console output, chat messages). *)
Fixpoint array_filter_st {A St : Type} (f : A → St → bool * St)
    (l : list A) (s : St) : list A * St :=
  match l with
  | [] => ([], s)
  | x :: l' =>
      let '(keep, s1) := f x s in
      let '(xs, s2) := array_filter_st f l' s1 in
      (if keep then x :: xs else xs, s2)
  end.

(** [nodeIdMap.get(k)]: the stored id, or [undefined]. *)
Definition map_get (m : gmap jsval string) (k : jsval) : jsval :=
  match m !! k with
  | Some u => JStr u
  | None => JUndefined
  end.

(** [String(v)] for the values interpolated into template literals. *)
Definition js_to_string (v : jsval) : string :=
  match v with
  | JUndefined => "undefined"
  | JNull => "null"
  | JBool true => "true"
  | JBool false => "false"
  | JNum n => NilEmpty.string_of_int (Z.to_int n)
  | JStr s => s
  end.

(** Truthiness of an optional string field ([None]: the field is absent). *)
Definition str_truthy (o : option string) : bool :=
  match o with
  | Some s => negb (String.eqb s "")
  | None => false
  end.

(** ** Server data *)

(** An entity of [kg_data.entities]; [ent_description] is
    [entity.details?.description?.[0]]. *)
Record entity := Entity {
  ent_label : string;
  ent_type : string;
  ent_description : option string
}.

Record rel_item := RelItem {
  fromLabel : string;
  toLabel : string;
  relation : string
}.

(** [kg_data]: [relationships] is an object, kept as its entries in key
    order; the value of a key is [None] when it is not an array. *)
Record kg_data := KgData {
  kg_entities : option (list entity);
  kg_relationships : option (list (string * option (list rel_item)));
  kg_visualization : option visualization
}.

(** The body of a [/api/chat] reply; [error], [detail] and [response] are
    strings when they are present. *)
Record chat_data := ChatData {
  cd_error : option string;
  cd_detail : option string;
  cd_response : option string;
  cd_confidence : jsval;
  cd_kg_data : option kg_data
}.

(** The body of a [/api/kg/full] reply; [fk_nodes] and [fk_edges] are
    [None] as in [visualization]. *)
Record full_kg_data := FullKgData {
  fk_error : option string;
  fk_nodes : option (list node);
  fk_edges : option (list edge)
}.

(** What [await fetch(...)] followed by [await res.json()] yields: the
    request is rejected, or a reply arrives whose body either fails to parse
    ([inl], with the exception's message) or parses. *)
Inductive http_reply (A : Type) :=
  | FetchRejected (message : string)
  | HttpReply (ok : bool) (status : N) (body : string + A).
Arguments FetchRejected {A} message.
Arguments HttpReply {A} ok status body.

(** ** Component state *)

Record message := Message {
  m_from : string;
  m_text : string;
  m_type : string;
  m_kg_data : option kg_data
}.

Inductive level := LogLevel | WarnLevel | ErrorLevel.

(** The [useState] cells and refs of [App], the console, and the number of
    draws consumed so far.  [network] is the payload held by the live
    [VisNetwork] of [networkRef.current], if there is one. *)
Record app := App {
  messages : list message;
  input : string;
  loading : bool;
  isTyping : bool;
  showGraph : bool;
  graphType : option string;
  currentGraphData : option visualization;
  fullGraphData : option visualization;
  graphLoading : bool;
  network : option graph_data;
  console : list (level * string);
  tick : nat
}.

(** What lies outside the component: the configured server address, the
    clock and random generator, and the rendering library, whose [DataSet]
    and [VisNetwork] constructors may raise an exception (its message) when
    given a payload. *)
Record world := World {
  API_URL : string;
  draws : oracle;
  dataset_error : graph_data → option string;
  network_error : graph_data → option string
}.

(** [new DataSet(...)] for the nodes and edges, then [new VisNetwork(...)]:
    the message of the first exception raised, if any. *)
Definition renderer_error (w : world) (payload : graph_data) : option string :=
  match dataset_error w payload with
  | Some m => Some m
  | None => network_error w payload
  end.

(** [setMessages(m => [...m, msg])] *)
Definition add_message (msg : message) (st : app) : app :=
  App (messages st ++ [msg]) (input st) (loading st) (isTyping st) (showGraph st)
      (graphType st) (currentGraphData st) (fullGraphData st) (graphLoading st)
      (network st) (console st) (tick st).

Definition console_out (lv : level) (text : string) (st : app) : app :=
  App (messages st) (input st) (loading st) (isTyping st) (showGraph st)
      (graphType st) (currentGraphData st) (fullGraphData st) (graphLoading st)
      (network st) (console st ++ [(lv, text)]) (tick st).

Definition setInput (v : string) (st : app) : app :=
  App (messages st) v (loading st) (isTyping st) (showGraph st)
      (graphType st) (currentGraphData st) (fullGraphData st) (graphLoading st)
      (network st) (console st) (tick st).

Definition setLoading (v : bool) (st : app) : app :=
  App (messages st) (input st) v (isTyping st) (showGraph st)
      (graphType st) (currentGraphData st) (fullGraphData st) (graphLoading st)
      (network st) (console st) (tick st).

Definition setIsTyping (v : bool) (st : app) : app :=
  App (messages st) (input st) (loading st) v (showGraph st)
      (graphType st) (currentGraphData st) (fullGraphData st) (graphLoading st)
      (network st) (console st) (tick st).

Definition setShowGraph (v : bool) (st : app) : app :=
  App (messages st) (input st) (loading st) (isTyping st) v
      (graphType st) (currentGraphData st) (fullGraphData st) (graphLoading st)
      (network st) (console st) (tick st).

Definition setGraphType (v : option string) (st : app) : app :=
  App (messages st) (input st) (loading st) (isTyping st) (showGraph st)
      v (currentGraphData st) (fullGraphData st) (graphLoading st)
      (network st) (console st) (tick st).

Definition setCurrentGraphData (v : option visualization) (st : app) : app :=
  App (messages st) (input st) (loading st) (isTyping st) (showGraph st)
      (graphType st) v (fullGraphData st) (graphLoading st)
      (network st) (console st) (tick st).

Definition setFullGraphData (v : option visualization) (st : app) : app :=
  App (messages st) (input st) (loading st) (isTyping st) (showGraph st)
      (graphType st) (currentGraphData st) v (graphLoading st)
      (network st) (console st) (tick st).

Definition setGraphLoading (v : bool) (st : app) : app :=
  App (messages st) (input st) (loading st) (isTyping st) (showGraph st)
      (graphType st) (currentGraphData st) (fullGraphData st) v
      (network st) (console st) (tick st).

Definition set_network (v : option graph_data) (st : app) : app :=
  App (messages st) (input st) (loading st) (isTyping st) (showGraph st)
      (graphType st) (currentGraphData st) (fullGraphData st) (graphLoading st)
      v (console st) (tick st).

Definition advance (k : nat) (st : app) : app :=
  App (messages st) (input st) (loading st) (isTyping st) (showGraph st)
      (graphType st) (currentGraphData st) (fullGraphData st) (graphLoading st)
      (network st) (console st) (tick st + k).

Definition bot (text type : string) : message := Message "bot" text type None.

(** [networkRef.current.destroy(); networkRef.current = null] (the library
    call is taken not to raise on a live network). *)
Definition destroy_network (st : app) : app := set_network None st.

(** The messages of a given type that a step added to the chat. *)
Definition added_messages (before after : app) : list message :=
  drop (length (messages before)) (messages after).

Definition added_console (before after : app) : list (level * string) :=
  drop (length (console before)) (console after).

(** ** The current revision: per-query graph *)

(** Callback of [nodes.map] in [showQueryGraph]: generates the unique id,
    records it in [nodeIdMap] under the node's original id and returns the
    node with the new id.  [t] is the number of draws consumed before the
    call of [showQueryGraph]. *)
Definition showQueryGraph_node (w : world) (t : nat)
    (n : node) (index : nat) (nodeIdMap : gmap jsval string) : node * gmap jsval string :=
  let uniqueId := fresh_id "node" index (draws w (t + index)) in
  (node_with_id n (JStr uniqueId), <[node_id n := uniqueId]> nodeIdMap).

(** Callback of [.filter] in [showQueryGraph]. *)
Definition showQueryGraph_keep (e : edge) (st : app) : bool * app :=
  let isValid :=
    js_and (js_and (edge_from e) (edge_to e))
           (JBool (strict_ne (edge_from e) (edge_to e))) in
  if negb (truthy isValid) then
    (false, console_out WarnLevel
              "Invalid edge or self-loop filtered out in showQueryGraph:" st)
  else (true, st).

(** Callback of the [.map] over the kept edges in [showQueryGraph]. *)
Definition showQueryGraph_edge (w : world) (t : nat) (nodeIdMap : gmap jsval string)
    (index : nat) (e : edge) : edge :=
  edge_with_ends e
    (JStr (fresh_id "edge" index (draws w (t + index))))
    (js_or (map_get nodeIdMap (edge_from e)) (edge_from e))
    (js_or (map_get nodeIdMap (edge_to e)) (edge_to e)).

(** [edges?.length > 0] *)
Definition has_edges (edges : option (list edge)) : bool :=
  match edges with
  | Some l => negb (length l =? 0)%nat
  | None => false
  end.

(** [Array.isArray(edges) ? edges : []] *)
Definition edges_or_empty (edges : option (list edge)) : list edge :=
  default [] edges.

Definition showQueryGraph (w : world) (kgData : option kg_data) (st : app) : app :=
  let st := console_out LogLevel "Attempting to show query graph:" st in
  let st := destroy_network st in
  match kgData ≫= kg_visualization with
  | None =>
      add_message (bot "⚠️ No visualization data available for this query." "error")
        (console_out ErrorLevel "No visualization data available:" st)
  | Some viz =>
      match vis_nodes viz with
      | None =>
          add_message (bot "⚠️ Invalid knowledge graph data structure." "error")
            (console_out ErrorLevel
               "Invalid visualization data structure: nodes missing or not an array" st)
      | Some nodes =>
          if (length nodes =? 0)%nat then
            add_message (bot "⚠️ No nodes available for visualization." "error")
              (console_out WarnLevel "Empty visualization data: no nodes" st)
          else
            let '(processedNodes, nodeIdMap) :=
              array_map_st (showQueryGraph_node w (tick st)) 0 nodes ∅ in
            let '(kept, st) :=
              array_filter_st showQueryGraph_keep (edges_or_empty (vis_edges viz)) st in
            let validEdges :=
              imap (showQueryGraph_edge w (tick st + length nodes) nodeIdMap) kept in
            let st :=
              if has_edges (vis_edges viz) && (length validEdges =? 0)%nat then
                add_message
                  (bot "⚠️ No valid edges found for the knowledge graph. Displaying nodes only. Check server logs for edge data issues." "warning")
                  (console_out WarnLevel
                     "All edges were filtered out due to invalid from/to fields or self-loops" st)
              else st in
            let st := console_out LogLevel "Setting up query graph with:" st in
            let graphDataCopy := Visualization (Some processedNodes) (Some validEdges) in
            setShowGraph true
              (setGraphType (Some "query")
                 (setCurrentGraphData (Some graphDataCopy)
                    (advance (length nodes + length validEdges) st)))
      end
  end.

(** ** The current revision: full graph *)

Definition fetchFullKG_node (w : world) (t : nat)
    (n : node) (index : nat) (nodeIdMap : gmap jsval string) : node * gmap jsval string :=
  let uniqueId := fresh_id "node" index (draws w (t + index)) in
  (node_with_id n (JStr uniqueId), <[node_id n := uniqueId]> nodeIdMap).

(** Callback of [.filter] in [fetchFullKG]; it returns [isValid] itself,
    which [filter] converts to a boolean. *)
Definition fetchFullKG_keep (e : edge) (st : app) : bool * app :=
  let isValid :=
    js_and (js_and (edge_from e) (edge_to e))
           (JBool (strict_ne (edge_from e) (edge_to e))) in
  let st :=
    if negb (truthy isValid) then
      console_out WarnLevel "Invalid edge or self-loop filtered out in fetchFullKG:" st
    else st in
  (truthy isValid, st).

Definition fetchFullKG_edge (w : world) (t : nat) (nodeIdMap : gmap jsval string)
    (index : nat) (e : edge) : edge :=
  edge_with_ends e
    (JStr (fresh_id "edge" index (draws w (t + index))))
    (js_or (map_get nodeIdMap (edge_from e)) (edge_from e))
    (js_or (map_get nodeIdMap (edge_to e)) (edge_to e)).

(** The [try] block of [fetchFullKG]: [inl] carries the message of the
    exception that leaves it. *)
Definition fetchFullKG_try (w : world) (reply : http_reply full_kg_data) (st : app)
    : string + app :=
  match reply with
  | FetchRejected m => inl m
  | HttpReply ok status body =>
      if negb ok then inl ("Server error: " +:+ dec_N status)
      else
        match body with
        | inl m => inl m
        | inr data =>
            if str_truthy (fk_error data) then inl (default "" (fk_error data))
            else
              match fk_nodes data with
              | None =>
                  inl "Invalid knowledge graph data structure from server: nodes missing or not an array"
              | Some nodes =>
                  if (length nodes =? 0)%nat then inl "Received empty knowledge graph nodes"
                  else
                    let '(processedNodes, nodeIdMap) :=
                      array_map_st (fetchFullKG_node w (tick st)) 0 nodes ∅ in
                    let '(kept, st) :=
                      array_filter_st fetchFullKG_keep (edges_or_empty (fk_edges data)) st in
                    let processedEdges :=
                      imap (fetchFullKG_edge w (tick st + length nodes) nodeIdMap) kept in
                    let processedData :=
                      Visualization (Some processedNodes) (Some processedEdges) in
                    inr (setShowGraph true
                           (setGraphType (Some "full")
                              (setCurrentGraphData (Some processedData)
                                 (setFullGraphData (Some processedData)
                                    (advance (length nodes + length processedEdges) st)))))
              end
        end
  end.

Definition fetchFullKG (w : world) (reply : http_reply full_kg_data) (st : app) : app :=
  let st := setGraphLoading true st in
  let st :=
    match fetchFullKG_try w reply st with
    | inr st' => st'
    | inl e_message =>
        add_message
          (bot ("⚠️ Failed to load full Knowledge Graph: " +:+ e_message +:+
                ". Please check the server at " +:+ API_URL w +:+ " and try again.") "error")
          (console_out ErrorLevel "Failed to fetch full KG:" st)
    end in
  setGraphLoading false st.

(** ** The current revision: the rendering effect *)

(** [size: node.group === 'herbs' ? 25 : 20] *)
Definition render_size (group : jsval) : Z :=
  if strict_eq group (JStr "herbs") then 25 else 20.

Definition graphEffect_node (w : world) (t : nat)
    (n : node) (index : nat) (nodeIdMap : gmap jsval string) : node * gmap jsval string :=
  let uniqueId := fresh_id "node" index (draws w (t + index)) in
  (node_with_size (node_with_id n (JStr uniqueId)) (JNum (render_size (node_group n))),
   <[node_id n := uniqueId]> nodeIdMap).

Definition graphEffect_keep (e : edge) (st : app) : bool * app :=
  let isValid := js_and (edge_from e) (edge_to e) in
  if negb (truthy isValid) then
    (false, console_out WarnLevel "Invalid edge filtered out:" st)
  else if strict_eq (edge_from e) (edge_to e) then
    (false,
     add_message
       (bot ("⚠️ Detected self-loop in knowledge graph for node '" +:+
             js_to_string (edge_from e) +:+ "'. Check server logs for data issues.")
            "warning")
       (console_out WarnLevel "Self-loop detected:" st))
  else (true, st).

Definition graphEffect_edge (w : world) (t : nat) (nodeIdMap : gmap jsval string)
    (index : nat) (e : edge) : edge :=
  edge_with_ends e
    (JStr (fresh_id "edge" index (draws w (t + index))))
    (js_or (map_get nodeIdMap (edge_from e)) (edge_from e))
    (js_or (map_get nodeIdMap (edge_to e)) (edge_to e)).

(** The message of the [TypeError] raised by [edges.length] when [edges] is
    [undefined]. *)
Definition type_error_length : string :=
  "Cannot read properties of undefined (reading 'length')".

(** The [catch] clause of the effect. *)
Definition graphEffect_catch (e_message : string) (st : app) : app :=
  setShowGraph false
    (add_message
       (bot ("⚠️ Error rendering graph: " +:+ e_message +:+
             ". Try refreshing or checking the server logs.") "error")
       (console_out ErrorLevel "Failed to initialize network:" st)).

(** The effect that runs when [showGraph] or [currentGraphData] changed.
    [container] tells whether [containerRef.current] is set, that is whether
    the modal's container is in the document. *)
Definition graphEffect (w : world) (container : bool) (st : app) : app :=
  match currentGraphData st with
  | Some data =>
      if showGraph st && container then
        let st := destroy_network st in
        match vis_nodes data with
        | None =>
            setShowGraph false
              (add_message
                 (bot "⚠️ Invalid knowledge graph data structure. Please try another query." "error")
                 (console_out ErrorLevel
                    "Invalid graph data structure: nodes missing or not an array" st))
        | Some nodes =>
            if (length nodes =? 0)%nat then
              setShowGraph false
                (add_message
                   (bot "⚠️ No nodes available for the knowledge graph. Please try another query or check the server logs." "error")
                   (console_out WarnLevel "Empty graph data: no nodes" st))
            else
              let '(processedNodes, nodeIdMap) :=
                array_map_st (graphEffect_node w (tick st)) 0 nodes ∅ in
              let '(kept, st) :=
                array_filter_st graphEffect_keep (edges_or_empty (vis_edges data)) st in
              let processedEdges :=
                imap (graphEffect_edge w (tick st + length nodes) nodeIdMap) kept in
              let st := advance (length nodes + length processedEdges) st in
              match vis_edges data with
              | None => graphEffect_catch type_error_length st
              | Some edges =>
                  let st :=
                    if negb (length edges =? 0)%nat && (length processedEdges =? 0)%nat then
                      add_message
                        (bot "⚠️ No valid edges found for the knowledge graph. Displaying nodes only. Check server logs for edge data issues." "warning")
                        (console_out WarnLevel
                           "All edges were filtered out due to invalid from/to fields or self-loops" st)
                    else st in
                  let st := console_out LogLevel "Creating graph with:" st in
                  let payload := GraphData processedNodes processedEdges in
                  match renderer_error w payload with
                  | Some e_message => graphEffect_catch e_message st
                  | None =>
                      console_out LogLevel "Network created successfully"
                        (set_network (Some payload) st)
                  end
              end
        end
      else st
  | None => st
  end.

(** ** Text processing *)

(** [s] without its prefix [p], when it has that prefix. *)
Fixpoint strip_prefix (p s : string) : option string :=
  match p with
  | "" => Some s
  | String a p' =>
      match s with
      | String b s' => if Ascii.eqb a b then strip_prefix p' s' else None
      | "" => None
      end
  end.

(** Does [s] start with a line terminator, the characters [.] does not
    match: U+000A, U+000D, U+2028 and U+2029 (in UTF-8: 0A, 0D, E2 80 A8 and
    E2 80 A9)? *)
Definition line_terminator_at (s : string) : bool :=
  match s with
  | String "010" _ => true
  | String "013" _ => true
  | String "226" (String "128" (String c _)) =>
      Ascii.eqb c "168" || Ascii.eqb c "169"
  | _ => false
  end.

(** The lazy group [(.*?)] followed by the literal [closing]: the shortest
    run of characters other than line terminators after which [closing]
    occurs, with what follows that occurrence. *)
Fixpoint lazy_until (closing : string) (s : string) : option (string * string) :=
  match strip_prefix closing s with
  | Some rest => Some ("", rest)
  | None =>
      match s with
      | "" => None
      | String c s' =>
          if line_terminator_at s then None
          else
            match lazy_until closing s' with
            | Some (cap, rest) => Some (String c cap, rest)
            | None => None
            end
      end
  end.

(** [s.replace(/<opening>(.*?)<closing>/g, '<b>$1</b>')] for literal
    delimiters: the matches are looked for from left to right, each search
    resuming where the previous match ended; the text between matches is
    copied.  [fuel] bounds the number of positions tried. *)
Fixpoint replace_bold_fuel (fuel : nat) (opening closing : string) (s : string) : string :=
  match fuel with
  | 0 => s
  | S fuel' =>
      match s with
      | "" => ""
      | String c s' =>
          match strip_prefix opening s ≫= lazy_until closing with
          | Some (cap, rest) =>
              "<b>" +:+ cap +:+ "</b>" +:+ replace_bold_fuel fuel' opening closing rest
          | None => String c (replace_bold_fuel fuel' opening closing s')
          end
      end
  end.

Definition replace_bold (opening closing : string) (s : string) : string :=
  replace_bold_fuel (String.length s) opening closing s.

(** [s.replace(/c/g, '')] for a literal character [c]. *)
Fixpoint remove_char (c : ascii) (s : string) : string :=
  match s with
  | "" => ""
  | String a s' => if Ascii.eqb a c then remove_char c s' else String a (remove_char c s')
  end.

Definition processResponseText (text : string) : string :=
  let processed :=
    remove_char "*"
      (replace_bold "*" "*"
         (replace_bold "**" "**" text)) in
  processed.

(** [s.replace(/_/g, ' ')] *)
Fixpoint underscores_to_spaces (s : string) : string :=
  match s with
  | "" => ""
  | String a s' =>
      String (if Ascii.eqb a "_" then " "%char else a) (underscores_to_spaces s')
  end.

Definition is_upper (a : ascii) : bool :=
  (65 <=? nat_of_ascii a)%nat && (nat_of_ascii a <=? 90)%nat.

(** [s.replace(/([A-Z])/g, ' $1')] *)
Fixpoint space_before_capitals (s : string) : string :=
  match s with
  | "" => ""
  | String a s' =>
      if is_upper a then String " " (String a (space_before_capitals s'))
      else String a (space_before_capitals s')
  end.

(** The UTF-8 encodings of the characters [trim] removes: white space
    (U+0009, U+000B, U+000C, U+0020, U+00A0, U+FEFF and the space
    separators) and the line terminators. *)
Definition utf8_2 (a b : nat) : string :=
  String (ascii_of_nat a) (String (ascii_of_nat b) "").
Definition utf8_3 (a b c : nat) : string :=
  String (ascii_of_nat a) (String (ascii_of_nat b) (String (ascii_of_nat c) "")).

Definition js_whitespace : list string :=
  [ String "009" ""; String "010" ""; String "011" ""; String "012" "";
    String "013" ""; " ";
    utf8_2 194 160; utf8_3 225 154 128;
    utf8_3 226 128 128; utf8_3 226 128 129; utf8_3 226 128 130;
    utf8_3 226 128 131; utf8_3 226 128 132; utf8_3 226 128 133;
    utf8_3 226 128 134; utf8_3 226 128 135; utf8_3 226 128 136;
    utf8_3 226 128 137; utf8_3 226 128 138;
    utf8_3 226 128 168; utf8_3 226 128 169; utf8_3 226 128 175;
    utf8_3 226 129 159; utf8_3 227 128 128; utf8_3 239 187 191 ].

(** [s] without one leading character of [chars], if it starts with one. *)
Fixpoint strip_one (chars : list string) (s : string) : option string :=
  match chars with
  | [] => None
  | p :: chars' =>
      match strip_prefix p s with
      | Some rest => Some rest
      | None => strip_one chars' s
      end
  end.

Fixpoint trim_start_fuel (fuel : nat) (chars : list string) (s : string) : string :=
  match fuel with
  | 0 => s
  | S fuel' =>
      match strip_one chars s with
      | Some rest => trim_start_fuel fuel' chars rest
      | None => s
      end
  end.

Definition trimStart (s : string) : string :=
  trim_start_fuel (String.length s) js_whitespace s.

Definition trimEnd (s : string) : string :=
  String.rev (trim_start_fuel (String.length s) (String.rev <$> js_whitespace) (String.rev s)).

(** [s.trim()] *)
Definition trim (s : string) : string := trimEnd (trimStart s).

(** [l.join(sep)] *)
Fixpoint join (sep : string) (l : list string) : string :=
  match l with
  | [] => ""
  | [x] => x
  | x :: l' => x +:+ sep +:+ join sep l'
  end.

(** ** Answer formatting *)

(** [o || fallback] for an optional string. *)
Definition str_or (o : option string) (fallback : string) : string :=
  if str_truthy o then default "" o else fallback.

(** [a && a.length > 0] for an optional array. *)
Definition nonempty {A : Type} (o : option (list A)) : bool :=
  match o with
  | Some l => negb (length l =? 0)%nat
  | None => false
  end.

(** The line added for one entity. *)
Definition format_entity (e : entity) : string :=
  let description := str_or (ent_description e) "No description available" in
  nl +:+ "- " +:+ ent_label e +:+ " (" +:+ ent_type e +:+ "): " +:+ description.

Definition format_item (item : rel_item) : string :=
  fromLabel item +:+ " -> " +:+ toLabel item +:+ " (" +:+ relation item +:+ ")".

(** The text added for one entry of [relationships] (nothing when its value
    is not a non-empty array). *)
Definition format_relationship (entry : string * option (list rel_item)) : string :=
  let '(key, items) := entry in
  let cleanKey := trim (space_before_capitals (underscores_to_spaces key)) in
  if nonempty items then
    let relationshipItems := join ", " (format_item <$> take 5 (default [] items)) in
    nl +:+ "- " +:+ cleanKey +:+ ": " +:+ relationshipItems
  else "".

(** The condition under which [formatResults] adds the sources section. *)
Definition has_kg_sources (data : chat_data) : bool :=
  match cd_kg_data data with
  | Some kg => nonempty (kg_entities kg) || nonempty (kg_relationships kg)
  | None => false
  end.

Definition sources_header : string :=
  nl +:+ nl +:+ "📚 Sources from Knowledge Graph:".

(** What [formatResults] appends to the response text. *)
Definition kg_sources (data : chat_data) : string :=
  match cd_kg_data data with
  | Some kg =>
      if nonempty (kg_entities kg) || nonempty (kg_relationships kg) then
        sources_header
        +:+ (if nonempty (kg_entities kg) then
               nl +:+ "Entities Found:"
               +:+ foldr (λ e acc, format_entity e +:+ acc) ""
                     (take 5 (default [] (kg_entities kg)))
             else "")
        +:+ (if nonempty (kg_relationships kg) then
               nl +:+ "Relationships:"
               +:+ foldr (λ r acc, format_relationship r +:+ acc) ""
                     (default [] (kg_relationships kg))
             else "")
      else ""
  | None => ""
  end.

Definition error_text (data : chat_data) : string :=
  "❌ Query Error" +:+ nl +:+ nl
  +:+ str_or (cd_detail data) (default "" (cd_error data))
  +:+ nl +:+ nl
  +:+ "Try rephrasing your question or ask about specific herbs like turmeric, ashwagandha, or neem.".

Definition formatResults (data : chat_data) : string :=
  if str_truthy (cd_error data) then error_text data
  else
    let responseText :=
      processResponseText (str_or (cd_response data) "No response available.") in
    responseText +:+ kg_sources data.

(** ** Sending a question *)

(** The message of the [TypeError] raised by the debug logging of [send]
    when it calls [map] on a field [nodes] or [edges] that is missing from
    the visualization.  For a field that is [null] or holds a value that is
    no array, which [None] stands for as well, the call raises a [TypeError]
    too, worded otherwise; so the wording is not to be relied on, and what
    is stated of [send] speaks of the text of this error as of some text. *)
Definition type_error_map : string :=
  "Cannot read properties of undefined (reading 'map')".

(** The [try] block of [send] once the reply is there: [inl] carries the
    message of the exception that leaves it. *)
Definition send_try (reply : http_reply chat_data) (st : app) : string + app :=
  match reply with
  | FetchRejected m => inl m
  | HttpReply ok status body =>
      if negb ok then inl ("Server error: " +:+ dec_N status)
      else
        match body with
        | inl m => inl m
        | inr data =>
            if str_truthy (cd_error data) then inl (default "" (cd_error data))
            else
              let logged :=
                match cd_kg_data data ≫= kg_visualization with
                | Some viz =>
                    match vis_nodes viz, vis_edges viz with
                    | Some _, Some _ =>
                        inr (console_out LogLevel "Visualization data received:" st)
                    | _, _ => inl type_error_map
                    end
                | None => inr st
                end in
              match logged with
              | inl m => inl m
              | inr st =>
                  let botText := formatResults data in
                  inr (add_message
                         (Message "bot" botText
                            (if strict_eq (cd_confidence data) (JStr "high")
                             then "results" else "no-results")
                            (cd_kg_data data))
                         st)
              end
        end
  end.

Definition send (w : world) (reply : http_reply chat_data) (st : app) : app :=
  if (String.eqb (trim (input st)) "") || loading st then st
  else
    let userMsg := Message "user" (trim (input st)) "user" None in
    let st := add_message userMsg st in
    let st := setShowGraph false (setIsTyping true (setLoading true (setInput "" st))) in
    let st :=
      match send_try reply st with
      | inr st' => st'
      | inl e_message =>
          add_message
            (bot ("🔌 Connection Issue" +:+ nl +:+ nl
                  +:+ "I'm having trouble connecting to the knowledge base: "
                  +:+ e_message +:+ nl +:+ nl
                  +:+ "Please check if the server is running at " +:+ API_URL w
                  +:+ " and try again.") "error")
            (console_out ErrorLevel "API Error:" st)
      end in
    setIsTyping false (setLoading false st).

(** ** The earlier revision *)

(** The revision of the component that hands the server's payload to the
    renderer as it is and treats a payload without edges like one without
    nodes.  It has no [currentGraphData]: the effect reads [fullGraphData]
    or the visualization of the last message. *)
Module Earlier.

Definition fetchFullKG_try (reply : http_reply full_kg_data) (st : app) : string + app :=
  match reply with
  | FetchRejected m => inl m
  | HttpReply ok status body =>
      if negb ok then inl ("Server error: " +:+ dec_N status)
      else
        match body with
        | inl m => inl m
        | inr data =>
            if str_truthy (fk_error data) then inl (default "" (fk_error data))
            else
              match fk_nodes data with
              | None => inl type_error_length
              | Some nodes =>
                  if (length nodes =? 0)%nat then inl "Received empty knowledge graph data"
                  else
                    match fk_edges data with
                    | None => inl type_error_length
                    | Some edges =>
                        if (length edges =? 0)%nat then
                          inl "Received empty knowledge graph data"
                        else
                          inr (setShowGraph true
                                 (setGraphType (Some "full")
                                    (setFullGraphData
                                       (Some (Visualization (Some nodes) (Some edges))) st)))
                    end
              end
        end
  end.

Definition fetchFullKG (w : world) (reply : http_reply full_kg_data) (st : app) : app :=
  let st := setGraphLoading true st in
  let st :=
    match fetchFullKG_try reply st with
    | inr st' => st'
    | inl e_message =>
        add_message
          (bot ("⚠️ Failed to load full Knowledge Graph: " +:+ e_message +:+
                ". Please check the server at " +:+ API_URL w +:+ " and try again.") "error")
          (console_out ErrorLevel "Failed to fetch full KG:" st)
    end in
  setGraphLoading false st.

(** The payload the effect picks, if any. *)
Definition selected (st : app) : option visualization :=
  if bool_decide (graphType st = Some "full") && bool_decide (is_Some (fullGraphData st))
  then fullGraphData st
  else if bool_decide (graphType st = Some "query") then
    (last (messages st) ≫= m_kg_data) ≫= kg_visualization
  else None.

Definition graphEffect_node (n : node) : node :=
  node_with_size n (JNum (render_size (node_group n))).

(** The rendering effect; [inl] carries the message of an exception that
    nothing catches. *)
Definition graphEffect (w : world) (container : bool) (st : app) : string + app :=
  if showGraph st && container
     && (bool_decide (graphType st = Some "query") || bool_decide (graphType st = Some "full"))
  then
    match selected st with
    | None => inr st
    | Some data =>
        match vis_nodes data with
        | None => inl type_error_length
        | Some nodes =>
            let no_data :=
              if (length nodes =? 0)%nat then inr true
              else
                match vis_edges data with
                | None => inl type_error_length
                | Some edges => inr (length edges =? 0)%nat
                end in
            match no_data with
            | inl m => inl m
            | inr true =>
                inr (setShowGraph false
                       (add_message
                          (bot "⚠️ No data available for the knowledge graph. Please try another query or check the server logs." "error")
                          st))
            | inr false =>
                let payload :=
                  GraphData (graphEffect_node <$> nodes) (default [] (vis_edges data)) in
                match dataset_error w payload with
                | Some m => inl m
                | None =>
                    match network_error w payload with
                    | Some e_message =>
                        inr (add_message
                               (bot ("⚠️ Error rendering graph: " +:+ e_message +:+
                                     ". Try refreshing or checking the server logs.") "error")
                               (console_out ErrorLevel "Failed to initialize network:" st))
                    | None => inr (set_network (Some payload) st)
                    end
                end
            end
        end
    end
  else inr st.

End Earlier.

(** ** Notions used to state the properties *)

(** An edge is kept when both endpoints are truthy and differ. *)
Definition edge_valid (e : edge) : bool :=
  truthy (edge_from e) && truthy (edge_to e) && strict_ne (edge_from e) (edge_to e).

(** The position of the last node of [l] whose id is [k]: the entry a
    [Map] filled by [set] in list order ends up holding for [k]. *)
Fixpoint last_with_id (k : jsval) (l : list node) : option nat :=
  match l with
  | [] => None
  | n :: l' =>
      match last_with_id k l' with
      | Some j => Some (S j)
      | None => if decide (node_id n = k) then Some 0 else None
      end
  end.

(** A [nodes.map] callback that gives the node at [index] the id
    [uid index] and records it under the node's original id. *)
Definition id_assigning (uid : nat → string)
    (f : node → nat → gmap jsval string → node * gmap jsval string) : Prop :=
  ∀ n i m,
    node_id (f n i m).1 = JStr (uid i) ∧ (f n i m).2 = <[node_id n := uid i]> m.

(** The id generated for the node at [index] by a pass that starts after
    [t] draws. *)
Definition node_uid (w : world) (t : nat) (index : nat) : string :=
  fresh_id "node" index (draws w (t + index)).

(** The endpoint an edge callback writes for the original endpoint [k]. *)
Definition remap (nodeIdMap : gmap jsval string) (k : jsval) : jsval :=
  js_or (map_get nodeIdMap k) k.

(** The ids of the nodes of a payload. *)
Definition ids (l : list node) : list jsval := node_id <$> l.

(** The edge callbacks of the three passes write the same thing: a fresh
    edge id and both endpoints remapped. *)
Definition remap_edge (w : world) (t : nat) (nodeIdMap : gmap jsval string)
    (index : nat) (e : edge) : edge :=
  edge_with_ends e
    (JStr (fresh_id "edge" index (draws w (t + index))))
    (remap nodeIdMap (edge_from e))
    (remap nodeIdMap (edge_to e)).

(** Referential integrity of a payload: both endpoints of every edge are
    ids of its nodes. *)
Definition referential_integrity (nodes : list node) (edges : list edge) : Prop :=
  ∀ e, e ∈ edges → edge_from e ∈ ids nodes ∧ edge_to e ∈ ids nodes.

(** No edge of the list joins an id to itself. *)
Definition no_self_loop (edges : list edge) : Prop :=
  ∀ e, e ∈ edges → edge_from e ≠ edge_to e.

(** How the endpoint [k'] of a processed edge relates to the original
    endpoint [k]: the id of a processed node when some node of the payload
    had [k] as its id, and [k] itself otherwise. *)
Definition endpoint_resolved (nodes pn : list node) (k k' : jsval) : Prop :=
  (k ∈ ids nodes → k' ∈ ids pn) ∧ (k ∉ ids nodes → k' = k).

(** The processed edges are the kept edges of the input, one for one and in
    order, with the label unchanged and the endpoints resolved. *)
Definition edges_resolved (nodes pn : list node) (edges pe : list edge) : Prop :=
  Forall2
    (λ e e',
       edge_label e' = edge_label e ∧
       endpoint_resolved nodes pn (edge_from e) (edge_from e') ∧
       endpoint_resolved nodes pn (edge_to e) (edge_to e'))
    (List.filter edge_valid edges) pe.

(** No endpoint of an input edge that is not the id of a node happens to
    be one of the ids generated for the nodes. *)
Definition no_clash (nodes pn : list node) (edges : list edge) : Prop :=
  ∀ e, e ∈ edges →
    (edge_from e ∉ ids nodes → edge_from e ∉ ids pn) ∧
    (edge_to e ∉ ids nodes → edge_to e ∉ ids pn).

(** The payload a state holds in [currentGraphData], when both lists are
    there. *)
Definition current_payload (st : app) : option (list node * list edge) :=
  match currentGraphData st with
  | Some (Visualization (Some pn) (Some pe)) => Some (pn, pe)
  | _ => None
  end.

(** The payload held by the live network. *)
Definition rendered_payload (st : app) : option (list node * list edge) :=
  match network st with
  | Some (GraphData pn pe) => Some (pn, pe)
  | None => None
  end.

(** The warning shown when edges were received and none was kept. *)
Definition no_valid_edges_warning : message :=
  bot "⚠️ No valid edges found for the knowledge graph. Displaying nodes only. Check server logs for edge data issues." "warning".

(** A [kg_data] that carries the given visualization. *)
Definition kg_with (nodes : option (list node)) (edges : option (list edge)) : kg_data :=
  KgData None None (Some (Visualization nodes edges)).

(** A successful [/api/kg/full] reply with the given payload. *)
Definition full_reply (nodes : option (list node)) (edges : option (list edge))
    : http_reply full_kg_data :=
  HttpReply true 200 (inr (FullKgData None nodes edges)).

(** A state in which a payload waits to be rendered. *)
Definition showing (nodes : option (list node)) (edges : option (list edge)) (st : app) : app :=
  setShowGraph true (setCurrentGraphData (Some (Visualization nodes edges)) st).

(** The filter callbacks of [showQueryGraph] and [fetchFullKG] only write
    to the console. *)
Definition quiet (s s' : app) : Prop :=
  tick s' = tick s ∧ messages s' = messages s.

(** The filter callback of the rendering effect writes to the console and
    adds chat messages of type [warning]. *)
Definition warned (s s' : app) : Prop :=
  tick s' = tick s ∧ showGraph s' = showGraph s ∧
  ∃ extra, messages s' = (messages s ++ extra)%list ∧
           Forall (λ m, m_type m = "warning") extra.

(** ** Sample inputs *)

Definition dq : string := String "034"%char "".

(** The state of a freshly mounted component. *)
Definition initial : app :=
  App [Message "bot"
         ("Namaste! 🙏 Welcome to Ayurvedic Wisdom - your gateway to ancient healing knowledge."
          +:+ nl +:+ nl +:+ "I can help you discover:"
          +:+ nl +:+ "• Traditional herbs and their properties"
          +:+ nl +:+ "• Natural remedies for common ailments"
          +:+ nl +:+ "• Ayurvedic principles and practices"
          +:+ nl +:+ "• Wellness guidance from ancient texts"
          +:+ nl +:+ nl +:+ "Try asking: " +:+ dq +:+ "What herbs help with stress?" +:+ dq
          +:+ " or " +:+ dq +:+ "Remedies for better digestion" +:+ dq)
         "welcome" None]
      "" false false false None None None false None [] 0.

(** A world whose clock and random generator always give the same
    readings, and whose renderer accepts every payload. *)
Definition still_world : world :=
  World "http://127.0.0.1:5000" (λ _, Draw 1700000000000 "0.5") (λ _, None) (λ _, None).

(** A world whose clock advances by one millisecond at each reading. *)
Definition ticking_world : world :=
  World "http://127.0.0.1:5000"
    (λ i, Draw (1700000000000 + N.of_nat i) "0.5") (λ _, None) (λ _, None).

Definition ashwagandha : node := Node (JStr "ashwagandha") (JStr "Ashwagandha") (JStr "herbs") JUndefined.
Definition stress : node := Node (JStr "stress") (JStr "Stress") (JStr "conditions") JUndefined.

Definition treats_stress : edge :=
  Edge (JStr "e1") (JStr "ashwagandha") (JStr "stress") (JStr "treats").
Definition treats_anxiety : edge :=
  Edge (JStr "e2") (JStr "ashwagandha") (JStr "anxiety") (JStr "treats").
Definition loop_edge : edge :=
  Edge (JStr "e3") (JStr "ashwagandha") (JStr "ashwagandha") (JStr "sameAs").
(** An edge to an id that is no node's id, and that spells the id
    [still_world] generates for the first node. *)
Definition clashing_edge : edge :=
  Edge (JStr "e4") (JStr "ashwagandha") (JStr "node_0_1700000000000_0.5") (JStr "treats").

(** The endpoint written for the original endpoint [k], read off the
    [Map]: the new id of the last node that carries [k] as its original id
    (a later [set] overwrites an earlier one), or [k] itself when no node
    carries it. *)
Definition mapped_endpoint (nodes pn : list node) (k k' : jsval) : Prop :=
  match last_with_id k nodes with
  | Some j => ∃ n', pn !! j = Some n' ∧ node_id n' = k'
  | None => k' = k
  end.

Definition edges_mapped (nodes pn : list node) (edges pe : list edge) : Prop :=
  Forall2
    (λ e e',
       mapped_endpoint nodes pn (edge_from e) (edge_from e') ∧
       mapped_endpoint nodes pn (edge_to e) (edge_to e'))
    (List.filter edge_valid edges) pe.

(** An edge to an id that is no node's id, and that spells the id the
    rendering effect generates for the first node in [ticking_world] when it
    runs after [showQueryGraph] has processed one node and one edge. *)
Definition predicted_edge : edge :=
  Edge (JStr "e5") (JStr "ashwagandha") (JStr "node_0_1700000000002_0.5") (JStr "treats").

(** The chat message [fetchFullKG] shows for an exception with the given
    message. *)
Definition full_kg_failure (w : world) (e_message : string) : message :=
  bot ("⚠️ Failed to load full Knowledge Graph: " +:+ e_message +:+
       ". Please check the server at " +:+ API_URL w +:+ " and try again.") "error".

(** Replies that differ in one field only. *)
Definition with_response (data : chat_data) (r : option string) : chat_data :=
  ChatData (cd_error data) (cd_detail data) r (cd_confidence data) (cd_kg_data data).

Definition with_confidence (data : chat_data) (c : jsval) : chat_data :=
  ChatData (cd_error data) (cd_detail data) (cd_response data) c (cd_kg_data data).

(** A successful [/api/chat] reply. *)
Definition chat_reply (data : chat_data) : http_reply chat_data :=
  HttpReply true 200 (inr data).

(** [send] goes ahead: there is a question in the input box and no request
    is under way. *)
Definition can_send (st : app) : Prop :=
  String.eqb (trim (input st)) "" = false ∧ loading st = false.

(** The debug logging of [send] raises no [TypeError]: a visualization, if
    present, has both its arrays. *)
Definition loggable (data : chat_data) : Prop :=
  match cd_kg_data data ≫= kg_visualization with
  | Some viz => is_Some (vis_nodes viz) ∧ is_Some (vis_edges viz)
  | None => True
  end.

(** The chat message [send] shows for an exception with the given message. *)
Definition connection_issue (w : world) (e_message : string) : message :=
  bot ("🔌 Connection Issue" +:+ nl +:+ nl
       +:+ "I'm having trouble connecting to the knowledge base: "
       +:+ e_message +:+ nl +:+ nl
       +:+ "Please check if the server is running at " +:+ API_URL w
       +:+ " and try again.") "error".

(** Sample replies: structured data with low confidence, and high
    confidence without structured data. *)
Definition low_with_data : chat_data :=
  ChatData None None (Some "Ashwagandha may help.") (JStr "low")
    (Some (KgData (Some [Entity "Ashwagandha" "Herb" (Some "An adaptogen")]) None None)).

Definition high_without_data : chat_data :=
  ChatData None None (Some "Ashwagandha may help.") (JStr "high") None.

Definition failed_reply : chat_data :=
  ChatData (Some "Query must not be empty") (Some "empty query")
    (Some "Ashwagandha may help.") (JStr "low") None.

Definition asking (question : string) (st : app) : app := setInput question st.

(** The chat message the earlier rendering effect shows for a payload
    without nodes or without edges. *)
Definition no_data_error : message :=
  bot "⚠️ No data available for the knowledge graph. Please try another query or check the server logs." "error".

(** The console entry [fetchFullKG] writes for each edge it filters out. *)
Definition full_kg_edge_warning : level * string :=
  (WarnLevel, "Invalid edge or self-loop filtered out in fetchFullKG:").

(** ** The current revision: the rest of the component *)

(** [formatTime]: [now] is the reading of [new Date()] and [timestamp] the
    time of the message, both in milliseconds; [toLocaleTimeString] is the
    host's rendering of a time of day. *)
Definition formatTime (toLocaleTimeString : Z → string) (now timestamp : Z) : string :=
  let diff := (now - timestamp)%Z in
  if (diff <? 60000)%Z then "Just now"
  else if (diff <? 3600000)%Z then js_to_string (JNum (diff / 60000)) +:+ "m ago"
  else toLocaleTimeString timestamp.

Definition quickQuestions : list (string * string) :=
  [ ("Herbs for stress relief", "🧘");
    ("Natural digestive aids", "🌿");
    ("Immunity boosting herbs", "🛡️");
    ("Sleep promoting remedies", "🌙");
    ("Anti-inflammatory herbs", "🔥");
    ("Energy boosting adaptogens", "⚡") ].

(** The element [getMessageIcon] returns: the icon component and its
    [className], if it has one. *)
Record icon := Icon {
  icon_component : string;
  icon_className : option string
}.

Definition getMessageIcon (m : message) : icon :=
  if String.eqb (m_type m) "welcome" then Icon "Heart" (Some "text-rose-400")
  else if String.eqb (m_type m) "results" then Icon "Sparkles" (Some "text-emerald-400")
  else if String.eqb (m_type m) "error" then Icon "Zap" (Some "text-amber-400")
  else if String.eqb (m_type m) "warning" then Icon "Zap" (Some "text-yellow-400")
  else Icon "Leaf" None.

Definition getMessageStyle (m : message) : string :=
  let baseClasses := "message-bubble" in
  if String.eqb (m_from m) "user" then baseClasses +:+ " user-message"
  else if String.eqb (m_type m) "welcome" then baseClasses +:+ " bot-message welcome-message"
  else if String.eqb (m_type m) "results" then baseClasses +:+ " bot-message results-message"
  else if String.eqb (m_type m) "no-results" then baseClasses +:+ " bot-message no-results-message"
  else if String.eqb (m_type m) "error" then baseClasses +:+ " bot-message error-message"
  else if String.eqb (m_type m) "warning" then baseClasses +:+ " bot-message warning-message"
  else baseClasses +:+ " bot-message".

(** [message.kg_data?.visualization?.nodes?.length > 0]: whether the
    message is rendered with its [View Knowledge Graph] button. *)
Definition view_graph_button (m : message) : bool :=
  match (m_kg_data m ≫= kg_visualization) ≫= vis_nodes with
  | Some nodes => negb (length nodes =? 0)%nat
  | None => false
  end.

(** [messages.length === 1 && !loading]: whether the popular questions are
    rendered. *)
Definition quick_questions_shown (st : app) : bool :=
  (length (messages st) =? 1)%nat && negb (loading st).

(** [disabled={loading || !input.trim()}] of the send button. *)
Definition send_disabled (st : app) : bool :=
  loading st || String.eqb (trim (input st)) "".

(** [onClick] of the close button of the graph modal. *)
Definition closeGraph (st : app) : app :=
  destroy_network (setShowGraph false st).

(** ** Sessions *)

(** What can happen to the mounted component.  [send] and [fetchFullKG]
    are taken as one step each, from the call to the end of their [finally]
    block, with the reply they receive; the rendering effect may run after
    any step. *)
Inductive action :=
  | TypeInput (text : string)
  | PickQuestion (index : nat)
  | PressSend (reply : http_reply chat_data)
  | ClickViewGraph (index : nat)
  | ClickFullKG (reply : http_reply full_kg_data)
  | RunEffect (container : bool)
  | ClickClose.

Definition step (w : world) (a : action) (st : app) : app :=
  match a with
  | TypeInput text => setInput text st
  | PickQuestion index =>
      match quickQuestions !! index with
      | Some question => if quick_questions_shown st then setInput question.1 st else st
      | None => st
      end
  | PressSend reply => send w reply st
  | ClickViewGraph index =>
      match messages st !! index with
      | Some m => if view_graph_button m then showQueryGraph w (m_kg_data m) st else st
      | None => st
      end
  | ClickFullKG reply => if graphLoading st then st else fetchFullKG w reply st
  | RunEffect container => graphEffect w container st
  | ClickClose => if showGraph st then closeGraph st else st
  end.

Definition run (w : world) (actions : list action) (st : app) : app :=
  foldl (λ st a, step w a st) st actions.

(** A reply that answers properly but whose visualization has nodes and no
    [edges] field. *)
Definition answer_without_edges : chat_data :=
  ChatData None None (Some "Ashwagandha may help.") (JStr "high")
    (Some (KgData (Some [Entity "Ashwagandha" "Herb" None]) None
             (Some (Visualization (Some [ashwagandha]) None)))).

(** The messages the component puts in the chat: the user's questions, and
    messages from the bot of one of five types. *)
Definition produced (m : message) : Prop :=
  (m_from m = "user" ∧ m_type m = "user") ∨
  (m_from m = "bot" ∧ m_type m ∈ ["welcome"; "results"; "no-results"; "error"; "warning"]).

(** The stored payload, if there is one, has both its arrays and at least
    one node. *)
Definition renderable (st : app) : Prop :=
  match currentGraphData st with
  | None => True
  | Some data =>
      ∃ nodes edges, data = Visualization (Some nodes) (Some edges) ∧ nodes ≠ []
  end.

(** How the state moves in a session: draws are only consumed, messages
    are only appended, and the stored payload is either kept or replaced by
    one with both arrays and at least one node. *)
Definition evolves (st st' : app) : Prop :=
  (tick st ≤ tick st')%nat ∧
  (∃ extra, messages st' = (messages st ++ extra)%list ∧ Forall produced extra) ∧
  (currentGraphData st' = currentGraphData st ∨
   ∃ pn pe, currentGraphData st' = Some (Visualization (Some pn) (Some pe)) ∧ pn ≠ []).

(** The edge ids of a payload are pairwise distinct and none of them is the
    id of a node of the payload. *)
Definition edge_ids_fresh (pn : list node) (pe : list edge) : Prop :=
  NoDup (edge_id <$> pe) ∧ ∀ e, e ∈ pe → edge_id e ∉ ids pn.

(** A processed node carries the label, group and size of the node it
    comes from. *)
Definition same_node_data (n n' : node) : Prop :=
  node_label n' = node_label n ∧ node_group n' = node_group n ∧ node_size n' = node_size n.

(** What the renderer gets for a received node: its label and group, and
    the size of its group. *)
Definition rendered_from (n n' : node) : Prop :=
  node_label n' = node_label n ∧ node_group n' = node_group n ∧
  node_size n' = JNum (render_size (node_group n)).

(** No line terminator occurs in [s]: the text [s] lies on one line. *)
Fixpoint single_line (s : string) : bool :=
  match s with
  | "" => true
  | String _ s' => negb (line_terminator_at s) && single_line s'
  end.

(** Replies that differ in the entities, or in the relationships, of their
    structured data only. *)
Definition with_entities (data : chat_data) (es : option (list entity)) : chat_data :=
  ChatData (cd_error data) (cd_detail data) (cd_response data) (cd_confidence data)
    ((λ kg, KgData es (kg_relationships kg) (kg_visualization kg)) <$> cd_kg_data data).

Definition with_relationships (data : chat_data)
    (rels : option (list (string * option (list rel_item)))) : chat_data :=
  ChatData (cd_error data) (cd_detail data) (cd_response data) (cd_confidence data)
    ((λ kg, KgData (kg_entities kg) rels (kg_visualization kg)) <$> cd_kg_data data).

(** The items of a relationship are listed: the value is a non-empty
    array. *)
Definition listed (entry : string * option (list rel_item)) : bool := nonempty entry.2.

(** ** The earlier revision: the rest of the component *)

Module EarlierUI.

(** [onClick] of the [View Knowledge Graph] button of a message: it takes
    nothing from the message. *)
Definition viewGraph (st : app) : app :=
  setShowGraph true (setGraphType (Some "query") st).

(** An entity as [formatResults] reads it: [oe_details] is [None] when the
    entity has no [details], and otherwise holds
    [entity.details.description?.[0]]. *)
Record entity := Entity {
  oe_label : string;
  oe_type : string;
  oe_details : option (option string)
}.

(** An item of a relationship, with the three labels [formatResults]
    tries in turn. *)
Record item := Item {
  conditionLabel : option string;
  herbLabel : option string;
  label : option string
}.

Record kg_data := KgData {
  kg_entities : option (list entity);
  kg_relationships : option (list (string * option (list item)));
  kg_visualization : option visualization
}.

Record chat_data := ChatData {
  cd_error : option string;
  cd_detail : option string;
  cd_response : option string;
  cd_confidence : jsval;
  cd_kg_data : option kg_data
}.

(** The messages of the [TypeError]s raised by [entity.details.description]
    when [details] is missing and by [items.map] when [items] is no
    array. *)
Definition type_error_description : string :=
  "Cannot read properties of undefined (reading 'description')".
Definition type_error_items : string := "items.map is not a function".

(** [item.conditionLabel || item.herbLabel || item.label || ''] *)
Definition item_text (i : item) : string :=
  str_or (conditionLabel i) (str_or (herbLabel i) (str_or (label i) "")).

(** The [forEach] over the entities: the text it appends, or the message of
    the exception it raises. *)
Fixpoint format_entities (es : list entity) : string + string :=
  match es with
  | [] => inr ""
  | e :: es' =>
      match oe_details e with
      | None => inl type_error_description
      | Some description =>
          match format_entities es' with
          | inl m => inl m
          | inr rest =>
              inr (nl +:+ "- " +:+ oe_label e +:+ " (" +:+ oe_type e +:+ "): "
                   +:+ str_or description "No description available." +:+ rest)
          end
      end
  end.

Fixpoint format_relationships (rels : list (string * option (list item))) : string + string :=
  match rels with
  | [] => inr ""
  | (key, items) :: rels' =>
      match items with
      | None => inl type_error_items
      | Some items =>
          match format_relationships rels' with
          | inl m => inl m
          | inr rest =>
              inr (nl +:+ "- " +:+ key +:+ ": " +:+ join ", " (item_text <$> items) +:+ rest)
          end
      end
  end.

Definition general_guidance : string :=
  nl +:+ nl +:+ "ℹ️ General Ayurvedic guidance provided.".

(** [formatResults] of the earlier revision: [inl] carries the message of
    an exception it raises. *)
Definition formatResults (data : chat_data) : string + string :=
  if str_truthy (cd_error data) then
    inr ("❌ Query Error" +:+ nl +:+ nl
         +:+ str_or (cd_detail data) (default "" (cd_error data))
         +:+ nl +:+ nl
         +:+ "Try rephrasing your question or ask about specific herbs like turmeric, ashwagandha, or neem.")
  else
    let responseText := str_or (cd_response data) "No response available." in
    match cd_kg_data data with
    | Some kg =>
        if nonempty (kg_entities kg) || nonempty (kg_relationships kg) then
          let responseText := responseText +:+ sources_header in
          let entities :=
            if nonempty (kg_entities kg) then
              match format_entities (default [] (kg_entities kg)) with
              | inl m => inl m
              | inr lines => inr (nl +:+ "Entities Found:" +:+ lines)
              end
            else inr "" in
          match entities with
          | inl m => inl m
          | inr entities =>
              let relationships :=
                if nonempty (kg_relationships kg) then
                  match format_relationships (default [] (kg_relationships kg)) with
                  | inl m => inl m
                  | inr lines => inr (nl +:+ "Relationships:" +:+ lines)
                  end
                else inr "" in
              match relationships with
              | inl m => inl m
              | inr relationships => inr (responseText +:+ entities +:+ relationships)
              end
          end
        else inr (responseText +:+ general_guidance)
    | None => inr (responseText +:+ general_guidance)
    end.

End EarlierUI.

(** * Properties *)

(** ** Generated identifiers *)

Lemma string_of_uint_no_underscore d :
  contains_char "_" (NilEmpty.string_of_uint d) = false.
Proof. induction d as [| d IH | d IH | d IH | d IH | d IH | d IH | d IH | d IH | d IH | d IH];
  simpl; auto. Qed.

Lemma dec_nat_no_underscore n : contains_char "_" (dec_nat n) = false.
Proof. apply string_of_uint_no_underscore. Qed.

Lemma dec_N_no_underscore n : contains_char "_" (dec_N n) = false.
Proof. apply string_of_uint_no_underscore. Qed.

Lemma string_of_uint_inj d d' :
  NilEmpty.string_of_uint d = NilEmpty.string_of_uint d' → d = d'.
Proof.
  intros H. apply (f_equal NilEmpty.uint_of_string) in H.
  rewrite !NilEmpty.usu in H. by injection H.
Qed.

Lemma dec_nat_inj a b : dec_nat a = dec_nat b → a = b.
Proof.
  intros H%string_of_uint_inj.
  rewrite <- (DecimalNat.Unsigned.of_to a), <- (DecimalNat.Unsigned.of_to b).
  by rewrite H.
Qed.

Lemma dec_N_inj a b : dec_N a = dec_N b → a = b.
Proof.
  intros H%string_of_uint_inj.
  rewrite <- (DecimalN.Unsigned.of_to a), <- (DecimalN.Unsigned.of_to b).
  by rewrite H.
Qed.

(** A field that holds no underscore ends at the first underscore. *)
Lemma field_split a b x y :
  contains_char "_" a = false → contains_char "_" b = false →
  a +:+ "_" +:+ x = b +:+ "_" +:+ y → a = b ∧ x = y.
Proof.
  revert b. induction a as [| c a IH]; intros [| c' b] Ha Hb Heq; simpl in *.
  - by injection Heq.
  - injection Heq as <- _. by rewrite Ascii.eqb_refl in Hb.
  - injection Heq as -> _. by rewrite Ascii.eqb_refl in Ha.
  - injection Heq as -> Heq.
    apply orb_false_iff in Ha as [_ Ha]. apply orb_false_iff in Hb as [_ Hb].
    destruct (IH b Ha Hb Heq) as [-> ->]. done.
Qed.

(** A generated id determines the index and the draw it was made from. *)
Lemma fresh_id_inj p i d i' d' :
  fresh_id p i d = fresh_id p i' d' → i = i' ∧ d = d'.
Proof.
  unfold fresh_id. intros H.
  apply (inj (String.app p)) in H. simpl in H. injection H as H.
  apply field_split in H as [Hi H]; [| apply dec_nat_no_underscore ..].
  apply field_split in H as [Hn Hr]; [| apply dec_N_no_underscore ..].
  apply dec_nat_inj in Hi. apply dec_N_inj in Hn.
  destruct d, d'; simpl in *. by subst.
Qed.

Lemma fresh_id_truthy p i d : truthy (JStr (fresh_id p i d)) = true.
Proof. unfold fresh_id. destruct p; reflexivity. Qed.

(** ** Truthiness *)

Lemma truthy_js_and a b : truthy (js_and a b) = truthy a && truthy b.
Proof. unfold js_and. destruct (truthy a) eqn:Ha; simpl; auto. Qed.

Lemma js_or_truthy a b : truthy a = true → js_or a b = a.
Proof. unfold js_or. by intros ->. Qed.

Lemma strict_eq_true a b : strict_eq a b = true ↔ a = b.
Proof. unfold strict_eq. apply bool_decide_eq_true. Qed.

Lemma strict_ne_true a b : strict_ne a b = true ↔ a ≠ b.
Proof.
  unfold strict_ne, strict_eq. rewrite negb_true_iff. apply bool_decide_eq_false.
Qed.

(** ** The edge filter *)

Lemma showQueryGraph_keep_valid e st : (showQueryGraph_keep e st).1 = edge_valid e.
Proof.
  unfold showQueryGraph_keep, edge_valid.
  rewrite !truthy_js_and. simpl.
  by destruct (truthy (edge_from e) && truthy (edge_to e) && strict_ne _ _).
Qed.

Lemma fetchFullKG_keep_valid e st : (fetchFullKG_keep e st).1 = edge_valid e.
Proof. unfold fetchFullKG_keep, edge_valid. simpl. by rewrite !truthy_js_and. Qed.

Lemma graphEffect_keep_valid e st : (graphEffect_keep e st).1 = edge_valid e.
Proof.
  unfold graphEffect_keep, edge_valid, strict_ne.
  rewrite truthy_js_and.
  destruct (truthy (edge_from e) && truthy (edge_to e)); simpl; [| done].
  by destruct (strict_eq _ _).
Qed.

Lemma array_filter_st_fst {A St : Type} (f : A → St → bool * St) (p : A → bool) l s :
  (∀ x s, (f x s).1 = p x) → (array_filter_st f l s).1 = List.filter p l.
Proof.
  intros Hf. revert s. induction l as [| x l IH]; intros s; simpl; [done |].
  specialize (Hf x s). destruct (f x s) as [keep s1]. simpl in Hf. subst keep.
  specialize (IH s1). destruct (array_filter_st f l s1) as [xs s2]. simpl in *.
  subst xs. by destruct (p x).
Qed.

(** A property of the state that every callback preserves is preserved by
    the whole pass. *)
Lemma array_filter_st_snd {A St : Type} (f : A → St → bool * St) (P : St → St → Prop) l s :
  (∀ s, P s s) → (∀ s1 s2 s3, P s1 s2 → P s2 s3 → P s1 s3) →
  (∀ x s, P s (f x s).2) → P s (array_filter_st f l s).2.
Proof.
  intros Hrefl Htrans Hf. revert s. induction l as [| x l IH]; intros s; simpl; [done |].
  specialize (Hf x s). destruct (f x s) as [keep s1].
  specialize (IH s1). destruct (array_filter_st f l s1) as [xs s2]. simpl in *.
  eauto.
Qed.

Lemma elem_of_filter_valid (e : edge) l :
  e ∈ List.filter edge_valid l ↔ e ∈ l ∧ edge_valid e = true.
Proof. rewrite !list_elem_of_In. apply filter_In. Qed.

Lemma edge_valid_inv e :
  edge_valid e = true →
  truthy (edge_from e) = true ∧ truthy (edge_to e) = true ∧ edge_from e ≠ edge_to e.
Proof.
  unfold edge_valid. intros [[? ?]%andb_true_iff ?%strict_ne_true]%andb_true_iff. done.
Qed.

(** ** The node pass *)

Lemma last_with_id_Some k l j :
  last_with_id k l = Some j → ∃ n, l !! j = Some n ∧ node_id n = k.
Proof.
  revert j. induction l as [| n l IH]; intros j; simpl; [done |].
  destruct (last_with_id k l) as [j' |].
  - intros [= <-]. destruct (IH j' eq_refl) as (n' & ? & ?). by exists n'.
  - case_decide; [| done]. intros [= <-]. by exists n.
Qed.

Lemma last_with_id_None k l : last_with_id k l = None ↔ k ∉ ids l.
Proof.
  unfold ids. induction l as [| n l IH]; simpl.
  - split; [intros _; apply not_elem_of_nil | done].
  - rewrite not_elem_of_cons. destruct (last_with_id k l) as [j |].
    + split; [done |]. intros [_ H]. by apply IH in H.
    + case_decide as Hk.
      * split; [done |]. intros [H _]. by destruct H.
      * split; [| done]. intros _. split; [congruence | by apply IH].
Qed.

Lemma last_with_id_is_Some k l : k ∈ ids l → is_Some (last_with_id k l).
Proof.
  intros Hin. destruct (last_with_id k l) eqn:E; [by eexists |].
  by apply last_with_id_None in E.
Qed.

(** Two original ids recorded at the same position are the same id. *)
Lemma last_with_id_inj k k' l j :
  last_with_id k l = Some j → last_with_id k' l = Some j → k = k'.
Proof.
  intros (n & Hn & <-)%last_with_id_Some (n' & Hn' & <-)%last_with_id_Some.
  congruence.
Qed.

Section node_pass.
Context (uid : nat → string).
Context (f : node → nat → gmap jsval string → node * gmap jsval string).
Context (Hf : id_assigning uid f).

Lemma node_pass_length i l m : length (array_map_st f i l m).1 = length l.
Proof.
  revert i m. induction l as [| n l IH]; intros i m; simpl; [done |].
  destruct (f n i m) as [y s1]. pose proof (IH (S i) s1) as IH'.
  destruct (array_map_st f (S i) l s1) as [ys s2]. simpl in *. by rewrite IH'.
Qed.

(** The node at position [j] receives the id [uid (i + j)]. *)
Lemma node_pass_ids i l m :
  ids (array_map_st f i l m).1 = (λ j, JStr (uid j)) <$> seq i (length l).
Proof.
  unfold ids. revert i m. induction l as [| n l IH]; intros i m; simpl; [done |].
  destruct (Hf n i m) as [Hid _].
  destruct (f n i m) as [y s1]. pose proof (IH (S i) s1) as IH'.
  destruct (array_map_st f (S i) l s1) as [ys s2]. simpl in *. f_equal; [exact Hid | exact IH'].
Qed.

(** The map holds, for each original id, the id generated at the last
    position where it occurs; other keys are untouched. *)
Lemma node_pass_map i l m k :
  (array_map_st f i l m).2 !! k =
    match last_with_id k l with
    | Some j => Some (uid (i + j))
    | None => m !! k
    end.
Proof.
  revert i m. induction l as [| n l IH]; intros i m; simpl; [done |].
  destruct (Hf n i m) as [_ Hm].
  destruct (f n i m) as [y s1]. pose proof (IH (S i) s1) as IH'.
  destruct (array_map_st f (S i) l s1) as [ys s2]. simpl in *.
  rewrite IH'. destruct (last_with_id k l) as [j |].
  - f_equal. f_equal. lia.
  - rewrite Hm. case_decide as Hk.
    + subst k. rewrite lookup_insert_eq. f_equal. f_equal. lia.
    + by rewrite lookup_insert_ne.
Qed.
End node_pass.

Lemma showQueryGraph_node_assigning w t :
  id_assigning (node_uid w t) (showQueryGraph_node w t).
Proof. by intros n i m. Qed.

Lemma fetchFullKG_node_assigning w t :
  id_assigning (node_uid w t) (fetchFullKG_node w t).
Proof. by intros n i m. Qed.

Lemma graphEffect_node_assigning w t :
  id_assigning (node_uid w t) (graphEffect_node w t).
Proof. by intros n i m. Qed.

Lemma node_uid_inj w t i j : node_uid w t i = node_uid w t j → i = j.
Proof. unfold node_uid. by intros [? _]%fresh_id_inj. Qed.

(** The ids generated by one pass are pairwise distinct. *)
Lemma node_uids_NoDup w t i n :
  NoDup ((λ j, JStr (node_uid w t j)) <$> seq i n).
Proof.
  apply NoDup_fmap_2_strong; [| apply NoDup_seq].
  intros a b _ _ H. apply (node_uid_inj w t). congruence.
Qed.

(** What [remap] yields after a pass over [l] that started from the empty
    map. *)
Lemma remap_after_pass w t f l k :
  id_assigning (node_uid w t) f →
  remap (array_map_st f 0 l ∅).2 k =
    match last_with_id k l with
    | Some j => JStr (node_uid w t j)
    | None => k
    end.
Proof.
  intros Hf. unfold remap, map_get.
  rewrite (node_pass_map _ _ Hf). simpl.
  destruct (last_with_id k l) as [j |].
  - apply js_or_truthy, fresh_id_truthy.
  - by rewrite lookup_empty.
Qed.

(** ** What the three passes store *)

Lemma length_eqb_0_cons {A : Type} (l : list A) : l ≠ [] → (length l =? 0)%nat = false.
Proof. by destruct l. Qed.

Lemma showQueryGraph_keep_quiet l st :
  quiet st (array_filter_st showQueryGraph_keep l st).2.
Proof.
  apply (array_filter_st_snd _ quiet); [done | intros ??? [? ?] [? ?]; split; congruence |].
  intros e s. unfold showQueryGraph_keep. by case_match.
Qed.

Lemma fetchFullKG_keep_quiet l st :
  quiet st (array_filter_st fetchFullKG_keep l st).2.
Proof.
  apply (array_filter_st_snd _ quiet); [done | intros ??? [? ?] [? ?]; split; congruence |].
  intros e s. unfold fetchFullKG_keep. simpl. by case_match.
Qed.

Lemma showQueryGraph_stores w kg st nodes edges :
  kg_visualization kg = Some (Visualization (Some nodes) edges) → nodes ≠ [] →
  let am := array_map_st (showQueryGraph_node w (tick st)) 0 nodes ∅ in
  let kept := List.filter edge_valid (edges_or_empty edges) in
  let validEdges := imap (remap_edge w (tick st + length nodes) am.2) kept in
  let st' := showQueryGraph w (Some kg) st in
  current_payload st' = Some (am.1, validEdges) ∧
  showGraph st' = true ∧
  graphType st' = Some "query" ∧
  tick st' = tick st + (length nodes + length validEdges) ∧
  messages st' =
    (messages st ++
       if has_edges edges && (length validEdges =? 0)%nat
       then [no_valid_edges_warning] else [])%list.
Proof.
  intros Hviz Hne. simpl. unfold showQueryGraph. simpl. rewrite Hviz. simpl.
  rewrite (length_eqb_0_cons _ Hne).
  destruct (array_map_st _ 0 nodes ∅) as [pn m] eqn:Eam.
  match goal with |- context [array_filter_st ?f ?l ?s] =>
    pose proof (array_filter_st_fst f edge_valid l s showQueryGraph_keep_valid) as Hk;
    pose proof (showQueryGraph_keep_quiet l s) as [Ht Hm];
    destruct (array_filter_st f l s) as [kept st1]
  end.
  simpl in Hk, Ht, Hm. subst kept. rewrite Ht.
  change (imap (showQueryGraph_edge w (tick st + length nodes) m))
    with (imap (remap_edge w (tick st + length nodes) m)).
  set (validEdges := imap _ _).
  destruct (has_edges edges && (length validEdges =? 0)%nat); simpl;
    rewrite ?Ht, ?Hm, ?app_nil_r; done.
Qed.

Lemma fetchFullKG_stores w status data st nodes :
  str_truthy (fk_error data) = false →
  fk_nodes data = Some nodes → nodes ≠ [] →
  let am := array_map_st (fetchFullKG_node w (tick st)) 0 nodes ∅ in
  let kept := List.filter edge_valid (edges_or_empty (fk_edges data)) in
  let processedEdges := imap (remap_edge w (tick st + length nodes) am.2) kept in
  let st' := fetchFullKG w (HttpReply true status (inr data)) st in
  current_payload st' = Some (am.1, processedEdges) ∧
  fullGraphData st' = currentGraphData st' ∧
  showGraph st' = true ∧
  graphType st' = Some "full" ∧
  tick st' = tick st + (length nodes + length processedEdges) ∧
  messages st' = messages st.
Proof.
  intros Herr Hnodes Hne. simpl. unfold fetchFullKG, fetchFullKG_try. simpl.
  rewrite Herr, Hnodes. rewrite (length_eqb_0_cons _ Hne).
  destruct (array_map_st _ 0 nodes ∅) as [pn m] eqn:Eam.
  match goal with |- context [array_filter_st ?f ?l ?s] =>
    pose proof (array_filter_st_fst f edge_valid l s fetchFullKG_keep_valid) as Hk;
    pose proof (fetchFullKG_keep_quiet l s) as [Ht Hm];
    destruct (array_filter_st f l s) as [kept st1]
  end.
  simpl in Hk, Ht, Hm. subst kept. simpl. rewrite Ht, Hm. done.
Qed.

Lemma warned_refl s : warned s s.
Proof. repeat split. exists []. by rewrite app_nil_r. Qed.

Lemma warned_trans s1 s2 s3 : warned s1 s2 → warned s2 s3 → warned s1 s3.
Proof.
  intros (Ht & Hs & x & Hx & Fx) (Ht' & Hs' & y & Hy & Fy).
  repeat split; [congruence .. |]. exists (x ++ y)%list.
  split; [by rewrite Hy, Hx, app_assoc | by apply Forall_app].
Qed.

Lemma graphEffect_keep_warned l st :
  warned st (array_filter_st graphEffect_keep l st).2.
Proof.
  apply (array_filter_st_snd _ warned); [apply warned_refl | apply warned_trans |].
  intros e s. unfold graphEffect_keep.
  repeat case_match; simpl; try apply warned_refl.
  - repeat split. exists []. by rewrite app_nil_r.
  - repeat split. eexists [_]. split; [done |]. by constructor.
Qed.

Lemma graphEffect_renders w st nodes edges :
  currentGraphData st = Some (Visualization (Some nodes) (Some edges)) →
  showGraph st = true → nodes ≠ [] →
  let am := array_map_st (graphEffect_node w (tick st)) 0 nodes ∅ in
  let kept := List.filter edge_valid edges in
  let processedEdges := imap (remap_edge w (tick st + length nodes) am.2) kept in
  renderer_error w (GraphData am.1 processedEdges) = None →
  let st' := graphEffect w true st in
  rendered_payload st' = Some (am.1, processedEdges) ∧
  showGraph st' = true ∧
  tick st' = tick st + (length nodes + length processedEdges) ∧
  ∃ extra,
    Forall (λ m, m_type m = "warning") extra ∧
    messages st' =
      (messages st ++ extra ++
         if negb (length edges =? 0)%nat && (length processedEdges =? 0)%nat
         then [no_valid_edges_warning] else [])%list.
Proof.
  intros Hdata Hshow Hne. simpl. unfold graphEffect. rewrite Hdata, Hshow. simpl.
  rewrite (length_eqb_0_cons _ Hne).
  destruct (array_map_st _ 0 nodes ∅) as [pn m] eqn:Eam.
  match goal with |- context [array_filter_st ?f ?l ?s] =>
    pose proof (array_filter_st_fst f edge_valid l s graphEffect_keep_valid) as Hk;
    pose proof (graphEffect_keep_warned l s) as (Ht & Hs & extra & Hm & Hw);
    destruct (array_filter_st f l s) as [kept st1]
  end.
  simpl in Hk, Ht, Hs, Hm. subst kept. rewrite Ht. cbn [fst snd].
  change (imap (graphEffect_edge w (tick st + length nodes) m))
    with (imap (remap_edge w (tick st + length nodes) m)).
  set (processedEdges := imap _ _). intros Hrender.
  destruct (negb (length edges =? 0)%nat && (length processedEdges =? 0)%nat); simpl;
    rewrite Hrender; simpl; rewrite ?Ht, ?Hs, ?Hm;
    (repeat split; [done .. |]); exists extra; split; try done;
    by rewrite <- ?app_assoc, ?app_nil_r.
Qed.

Lemma Forall2_imap_r {A B : Type} (P : A → B → Prop) (g : nat → A → B) (l : list A) :
  (∀ i x, l !! i = Some x → P x (g i x)) → Forall2 P l (imap g l).
Proof.
  revert g. induction l as [| x l IH]; intros g Hg; simpl; constructor.
  - by apply (Hg 0).
  - apply IH. intros i y Hy. by apply (Hg (S i)).
Qed.

(** ** The processed payload *)

(** What holds of the nodes and edges computed by any of the three passes:
    [f] is the node callback, [t] the number of draws consumed before the
    pass and [t'] the number consumed before its edges. *)
Section payload.
Context (w : world) (t t' : nat).
Context (f : node → nat → gmap jsval string → node * gmap jsval string).
Context (Hf : id_assigning (node_uid w t) f).
Context (nodes : list node) (edges : list edge).

Lemma payload_ids :
  ids (array_map_st f 0 nodes ∅).1 =
    (λ j, JStr (node_uid w t j)) <$> seq 0 (length nodes).
Proof. apply (node_pass_ids _ _ Hf). Qed.

Lemma payload_NoDup : NoDup (ids (array_map_st f 0 nodes ∅).1).
Proof. rewrite payload_ids. apply node_uids_NoDup. Qed.

Lemma payload_uid_in j :
  j < length nodes → JStr (node_uid w t j) ∈ ids (array_map_st f 0 nodes ∅).1.
Proof.
  intros Hj. rewrite payload_ids. apply list_elem_of_fmap. exists j.
  split; [done |]. apply elem_of_seq. lia.
Qed.

Lemma payload_resolved k :
  endpoint_resolved nodes (array_map_st f 0 nodes ∅).1 k
    (remap (array_map_st f 0 nodes ∅).2 k).
Proof.
  rewrite (remap_after_pass w t f nodes k Hf). split.
  - intros [j Hj]%last_with_id_is_Some. rewrite Hj.
    apply last_with_id_Some in Hj as (n & Hn & _).
    apply payload_uid_in. by eapply lookup_lt_Some.
  - intros Hk%last_with_id_None. by rewrite Hk.
Qed.

Lemma payload_edges_resolved :
  edges_resolved nodes (array_map_st f 0 nodes ∅).1 edges
    (imap (remap_edge w t' (array_map_st f 0 nodes ∅).2) (List.filter edge_valid edges)).
Proof.
  apply Forall2_imap_r. intros i e _.
  repeat split; try done; apply payload_resolved.
Qed.

(** Distinct original endpoints stay distinct, unless one of them is not a
    node id and happens to be a generated id. *)
Lemma payload_remap_ne k1 k2 :
  k1 ≠ k2 →
  (k1 ∉ ids nodes → k1 ∉ ids (array_map_st f 0 nodes ∅).1) →
  (k2 ∉ ids nodes → k2 ∉ ids (array_map_st f 0 nodes ∅).1) →
  remap (array_map_st f 0 nodes ∅).2 k1 ≠ remap (array_map_st f 0 nodes ∅).2 k2.
Proof.
  intros Hne H1 H2.
  rewrite !(remap_after_pass w t f nodes _ Hf).
  destruct (last_with_id k1 nodes) as [j1 |] eqn:E1;
    destruct (last_with_id k2 nodes) as [j2 |] eqn:E2.
  - intros Heq. assert (j1 = j2) as -> by (apply (node_uid_inj w t); congruence).
    apply Hne. by eapply last_with_id_inj.
  - intros Heq. apply last_with_id_None in E2. apply (H2 E2). rewrite <- Heq.
    apply last_with_id_Some in E1 as (n & Hn & _).
    apply payload_uid_in. by eapply lookup_lt_Some.
  - intros Heq. apply last_with_id_None in E1. apply (H1 E1). rewrite Heq.
    apply last_with_id_Some in E2 as (n & Hn & _).
    apply payload_uid_in. by eapply lookup_lt_Some.
  - done.
Qed.

Lemma payload_no_self_loop :
  no_clash nodes (array_map_st f 0 nodes ∅).1 (List.filter edge_valid edges) →
  no_self_loop
    (imap (remap_edge w t' (array_map_st f 0 nodes ∅).2) (List.filter edge_valid edges)).
Proof.
  intros Hclash e' (i & e & -> & Hi)%elem_of_lookup_imap_1.
  apply list_elem_of_lookup_2 in Hi.
  destruct (Hclash e Hi) as [H1 H2].
  apply elem_of_filter_valid in Hi as [_ (_ & _ & Hne)%edge_valid_inv].
  simpl. by apply payload_remap_ne.
Qed.

Lemma payload_integrity :
  (∀ e, e ∈ edges → edge_valid e = true →
        edge_from e ∈ ids nodes ∧ edge_to e ∈ ids nodes) →
  referential_integrity (array_map_st f 0 nodes ∅).1
    (imap (remap_edge w t' (array_map_st f 0 nodes ∅).2) (List.filter edge_valid edges)).
Proof.
  intros Hall e' (i & e & -> & Hi)%elem_of_lookup_imap_1.
  apply list_elem_of_lookup_2, elem_of_filter_valid in Hi as [He Hv].
  destruct (Hall e He Hv) as [H1 H2]. simpl.
  split; by apply payload_resolved.
Qed.

End payload.

(** ** C1: referential integrity *)

(** C1, as stated, fails: an edge to an id that no node of the payload
    carries is kept by [showQueryGraph] and stored with that original id,
    which is the id of no processed node. *)
Lemma C1_dangling_edge_kept :
  let pn := [Node (JStr "node_0_1700000000000_0.5") (JStr "Ashwagandha") (JStr "herbs") JUndefined] in
  let pe := [Edge (JStr "edge_0_1700000000000_0.5")
               (JStr "node_0_1700000000000_0.5") (JStr "anxiety") (JStr "treats")] in
  current_payload
    (showQueryGraph still_world
       (Some (kg_with (Some [ashwagandha]) (Some [treats_anxiety]))) initial)
  = Some (pn, pe) ∧
  ¬ referential_integrity pn pe.
Proof.
  split; [vm_compute; reflexivity |].
  intros H. destruct (H _ (list_elem_of_here _ _)) as [_ Hto].
  vm_compute in Hto. apply list_elem_of_singleton in Hto. discriminate.
Qed.

(** The endpoints written by an edge callback, read off the [Map]. *)
Lemma payload_mapped w t f nodes k :
  id_assigning (node_uid w t) f →
  mapped_endpoint nodes (array_map_st f 0 nodes ∅).1 k
    (remap (array_map_st f 0 nodes ∅).2 k).
Proof.
  intros Hf. unfold mapped_endpoint.
  rewrite (remap_after_pass w t f nodes k Hf).
  destruct (last_with_id k nodes) as [j |] eqn:E; [| done].
  apply last_with_id_Some in E as (n & Hn & _).
  pose proof (payload_ids w t f Hf nodes) as Hids. unfold ids in Hids.
  apply (f_equal (λ l, l !! j)) in Hids.
  rewrite !list_lookup_fmap, lookup_seq_lt in Hids by by eapply lookup_lt_Some.
  destruct ((array_map_st f 0 nodes ∅).1 !! j) as [n' |]; [| done].
  simpl in Hids. injection Hids as Hids. by exists n'.
Qed.

Lemma payload_edges_mapped w t t' f nodes edges :
  id_assigning (node_uid w t) f →
  edges_mapped nodes (array_map_st f 0 nodes ∅).1 edges
    (imap (remap_edge w t' (array_map_st f 0 nodes ∅).2) (List.filter edge_valid edges)).
Proof.
  intros Hf. apply Forall2_imap_r. intros i e _.
  split; by apply (payload_mapped w t).
Qed.

(** Referential integrity holds only for such payloads, unless an endpoint
    that is no node's id spells a generated id. *)
Lemma resolved_integrity_only nodes pn edges pe :
  edges_resolved nodes pn edges pe →
  no_clash nodes pn (List.filter edge_valid edges) →
  referential_integrity pn pe →
  ∀ e, e ∈ edges → edge_valid e = true →
       edge_from e ∈ ids nodes ∧ edge_to e ∈ ids nodes.
Proof.
  intros Hres Hclash Hri e He Hv.
  assert (e ∈ List.filter edge_valid edges) as Hin by by apply elem_of_filter_valid.
  destruct (Hclash e Hin) as [Cf Ct].
  apply list_elem_of_lookup_1 in Hin as [i Hi].
  destruct (Forall2_lookup_l _ _ _ _ _ Hres Hi) as (e' & Hi' & _ & [_ Hfrom] & [_ Hto]).
  apply list_elem_of_lookup_2 in Hi'. destruct (Hri e' Hi') as [Rf Rt].
  split.
  - destruct (decide (edge_from e ∈ ids nodes)) as [| Hout]; [done |].
    exfalso. apply (Cf Hout). by rewrite <- (Hfrom Hout).
  - destruct (decide (edge_to e ∈ ids nodes)) as [| Hout]; [done |].
    exfalso. apply (Ct Hout). by rewrite <- (Hto Hout).
Qed.

(** Without the proviso the converse fails: the edge to an id that no node
    carries is stored with both endpoints on the generated id of the one
    node, so that the stored payload has referential integrity. *)
Example integrity_by_clash :
  ∃ pn pe,
    current_payload
      (showQueryGraph still_world
         (Some (kg_with (Some [ashwagandha]) (Some [clashing_edge]))) initial)
    = Some (pn, pe) ∧
    referential_integrity pn pe ∧
    edge_to clashing_edge ∉ ids [ashwagandha].
Proof.
  eexists _, _. split; [vm_compute; reflexivity |]. split.
  - intros e He. apply list_elem_of_singleton in He as ->.
    split; apply list_elem_of_here.
  - intros He. apply list_elem_of_singleton in He. discriminate.
Qed.

(** C1 (amended): in the per-query and the full-graph path, the stored
    edges are exactly the input edges with two truthy, different endpoints,
    one for one and in order.  The node at position [j] is stored under the
    id generated for that position; an endpoint that is the id of a node of
    the payload is replaced by the id generated for that node (for the last
    one, when several nodes carry the id), and any other endpoint is kept as
    it is: the edge is not dropped.  So the stored payload has referential
    integrity when the endpoints of the kept edges are ids of nodes of the
    payload; and only then, provided no endpoint that is no node's id
    spells one of the generated ids. *)
Theorem C1_endpoints_resolved w st nodes edges :
  nodes ≠ [] →
  (∀ kg, kg_visualization kg = Some (Visualization (Some nodes) edges) →
     ∃ pn pe,
       current_payload (showQueryGraph w (Some kg) st) = Some (pn, pe) ∧
       ids pn = (λ j, JStr (node_uid w (tick st) j)) <$> seq 0 (length nodes) ∧
       edges_resolved nodes pn (edges_or_empty edges) pe ∧
       edges_mapped nodes pn (edges_or_empty edges) pe ∧
       ((∀ e, e ∈ edges_or_empty edges → edge_valid e = true →
              edge_from e ∈ ids nodes ∧ edge_to e ∈ ids nodes) →
        referential_integrity pn pe) ∧
       (no_clash nodes pn (List.filter edge_valid (edges_or_empty edges)) →
        referential_integrity pn pe →
        ∀ e, e ∈ edges_or_empty edges → edge_valid e = true →
             edge_from e ∈ ids nodes ∧ edge_to e ∈ ids nodes)) ∧
  (∀ status data,
     str_truthy (fk_error data) = false →
     fk_nodes data = Some nodes → fk_edges data = edges →
     ∃ pn pe,
       current_payload (fetchFullKG w (HttpReply true status (inr data)) st) = Some (pn, pe) ∧
       ids pn = (λ j, JStr (node_uid w (tick st) j)) <$> seq 0 (length nodes) ∧
       edges_resolved nodes pn (edges_or_empty edges) pe ∧
       edges_mapped nodes pn (edges_or_empty edges) pe ∧
       ((∀ e, e ∈ edges_or_empty edges → edge_valid e = true →
              edge_from e ∈ ids nodes ∧ edge_to e ∈ ids nodes) →
        referential_integrity pn pe) ∧
       (no_clash nodes pn (List.filter edge_valid (edges_or_empty edges)) →
        referential_integrity pn pe →
        ∀ e, e ∈ edges_or_empty edges → edge_valid e = true →
             edge_from e ∈ ids nodes ∧ edge_to e ∈ ids nodes)).
Proof.
  intros Hne. split.
  - intros kg Hkg.
    destruct (showQueryGraph_stores w kg st nodes edges Hkg Hne) as (Hp & _).
    pose proof (showQueryGraph_node_assigning w (tick st)) as Hf.
    eexists _, _. split; [exact Hp |].
    split; [by apply (payload_ids w (tick st)) |].
    split; [by apply (payload_edges_resolved w (tick st)) |].
    split; [by apply (payload_edges_mapped w (tick st)) |].
    split; [by apply (payload_integrity w (tick st)) |].
    apply resolved_integrity_only. by apply (payload_edges_resolved w (tick st)).
  - intros status data Herr Hnodes <-.
    destruct (fetchFullKG_stores w status data st nodes Herr Hnodes Hne) as (Hp & _).
    pose proof (fetchFullKG_node_assigning w (tick st)) as Hf.
    eexists _, _. split; [exact Hp |].
    split; [by apply (payload_ids w (tick st)) |].
    split; [by apply (payload_edges_resolved w (tick st)) |].
    split; [by apply (payload_edges_mapped w (tick st)) |].
    split; [by apply (payload_integrity w (tick st)) |].
    apply resolved_integrity_only. by apply (payload_edges_resolved w (tick st)).
Qed.

(** The statement above, at a sample input: two nodes, an edge between them and a self-loop. *)
Lemma C1_endpoints_resolved_witness :
  [ashwagandha; stress] ≠ [] ∧
  ∃ pn pe,
    current_payload
      (showQueryGraph ticking_world
         (Some (kg_with (Some [ashwagandha; stress]) (Some [treats_stress; loop_edge])))
         initial) = Some (pn, pe) ∧
    referential_integrity pn pe.
Proof.
  split; [done |].
  destruct (C1_endpoints_resolved ticking_world initial [ashwagandha; stress]
              (Some [treats_stress; loop_edge])) as [H _]; [done |].
  destruct (H (kg_with (Some [ashwagandha; stress]) (Some [treats_stress; loop_edge]))
              eq_refl) as (pn & pe & Hp & _ & _ & _ & Hri & _).
  exists pn, pe. split; [exact Hp |]. apply Hri.
  intros e He Hv. simpl in He.
  apply elem_of_cons in He as [-> | He].
  - split; [apply list_elem_of_here | apply list_elem_of_further, list_elem_of_here].
  - apply list_elem_of_singleton in He as ->. discriminate Hv.
Defined.

(** ** C2: self-loops *)

Lemma self_loop_not_kept e edges :
  edge_from e = edge_to e → e ∉ List.filter edge_valid edges.
Proof.
  intros Heq [_ Hv]%elem_of_filter_valid.
  by apply edge_valid_inv in Hv as (_ & _ & Hne).
Qed.

(** C2, as stated, fails: the edges are tested for [from === to] before
    their endpoints are remapped, and an endpoint that is no node's id is
    left as it is.  When such an endpoint spells the id generated for the
    node at the other end, the processed edge joins that id to itself: so
    in the list stored by [showQueryGraph], and so in the payload the
    rendering effect hands to the renderer. *)
Lemma C2_loop_after_remapping :
  let stored :=
    Edge (JStr "edge_0_1700000000000_0.5")
      (JStr "node_0_1700000000000_0.5") (JStr "node_0_1700000000000_0.5") (JStr "treats") in
  let rendered :=
    Edge (JStr "edge_0_1700000000003_0.5")
      (JStr "node_0_1700000000002_0.5") (JStr "node_0_1700000000002_0.5") (JStr "treats") in
  current_payload
    (showQueryGraph still_world
       (Some (kg_with (Some [ashwagandha]) (Some [clashing_edge]))) initial)
  = Some ([Node (JStr "node_0_1700000000000_0.5") (JStr "Ashwagandha") (JStr "herbs") JUndefined],
          [stored]) ∧
  ¬ no_self_loop [stored] ∧
  rendered_payload
    (graphEffect ticking_world true
       (showQueryGraph ticking_world
          (Some (kg_with (Some [ashwagandha]) (Some [predicted_edge]))) initial))
  = Some ([Node (JStr "node_0_1700000000002_0.5") (JStr "Ashwagandha") (JStr "herbs") (JNum 25)],
          [rendered]) ∧
  ¬ no_self_loop [rendered].
Proof.
  simpl. split; [vm_compute; reflexivity |].
  split; [intros H; by apply (H _ (list_elem_of_here _ _)) |].
  split; [vm_compute; reflexivity |].
  intros H; by apply (H _ (list_elem_of_here _ _)).
Qed.

(** C2 (amended): in [showQueryGraph], in [fetchFullKG] and in the
    rendering effect, every input edge with [from === to] is filtered out:
    the processed edges are the input edges with two truthy, different
    endpoints, one for one; and no processed edge has [from == to] provided
    no endpoint of a kept edge that is not the id of a node of the payload
    is one of the ids generated for the nodes. *)
Theorem C2_self_loops_filtered w st nodes edges :
  nodes ≠ [] →
  (∀ e, edge_from e = edge_to e → e ∉ List.filter edge_valid edges) ∧
  (∀ kg, kg_visualization kg = Some (Visualization (Some nodes) (Some edges)) →
     ∃ pn pe,
       current_payload (showQueryGraph w (Some kg) st) = Some (pn, pe) ∧
       edges_resolved nodes pn edges pe ∧
       (no_clash nodes pn (List.filter edge_valid edges) → no_self_loop pe)) ∧
  (∀ status data,
     str_truthy (fk_error data) = false →
     fk_nodes data = Some nodes → fk_edges data = Some edges →
     ∃ pn pe,
       current_payload (fetchFullKG w (HttpReply true status (inr data)) st) = Some (pn, pe) ∧
       edges_resolved nodes pn edges pe ∧
       (no_clash nodes pn (List.filter edge_valid edges) → no_self_loop pe)) ∧
  (currentGraphData st = Some (Visualization (Some nodes) (Some edges)) →
   showGraph st = true →
   (∀ payload, renderer_error w payload = None) →
   ∃ pn pe,
     rendered_payload (graphEffect w true st) = Some (pn, pe) ∧
     edges_resolved nodes pn edges pe ∧
     (no_clash nodes pn (List.filter edge_valid edges) → no_self_loop pe)).
Proof.
  intros Hne. split; [intros e He; by apply self_loop_not_kept |]. split; [| split].
  - intros kg Hkg.
    destruct (showQueryGraph_stores w kg st nodes (Some edges) Hkg Hne) as (Hp & _).
    eexists _, _. split; [exact Hp |]. split.
    + apply (payload_edges_resolved w (tick st)), showQueryGraph_node_assigning.
    + apply (payload_no_self_loop w (tick st)), showQueryGraph_node_assigning.
  - intros status data Herr Hnodes Hedges.
    destruct (fetchFullKG_stores w status data st nodes Herr Hnodes Hne) as (Hp & _).
    rewrite Hedges in Hp. eexists _, _. split; [exact Hp |]. split.
    + apply (payload_edges_resolved w (tick st)), fetchFullKG_node_assigning.
    + apply (payload_no_self_loop w (tick st)), fetchFullKG_node_assigning.
  - intros Hdata Hshow Hrender.
    destruct (graphEffect_renders w st nodes edges Hdata Hshow Hne (Hrender _)) as (Hp & _).
    eexists _, _. split; [exact Hp |]. split.
    + apply (payload_edges_resolved w (tick st)), graphEffect_node_assigning.
    + apply (payload_no_self_loop w (tick st)), graphEffect_node_assigning.
Qed.

(** The statement above, at a sample input: two nodes, an edge between them, a self-loop and a dangling edge. *)
Lemma C2_self_loops_filtered_witness :
  [ashwagandha; stress] ≠ [] ∧
  ∃ pn pe,
    current_payload
      (showQueryGraph ticking_world
         (Some (kg_with (Some [ashwagandha; stress])
                  (Some [treats_stress; loop_edge; treats_anxiety])))
         initial) = Some (pn, pe) ∧
    length pe = 2 ∧ no_self_loop pe.
Proof.
  split; [done |].
  destruct (C2_self_loops_filtered ticking_world initial [ashwagandha; stress]
              [treats_stress; loop_edge; treats_anxiety]) as (_ & H & _); [done |].
  destruct (H (kg_with (Some [ashwagandha; stress])
                 (Some [treats_stress; loop_edge; treats_anxiety])) eq_refl)
    as (pn & pe & Hp & Hres & Hloop).
  exists pn, pe. split; [exact Hp |].
  split; [by rewrite <- (Forall2_length _ _ _ Hres) |].
  apply Hloop. vm_compute in Hp. injection Hp as <- _.
  intros e He. simpl in He.
  apply elem_of_cons in He as [-> | He];
    [| apply list_elem_of_singleton in He as ->].
  - split; intros Hout; exfalso; apply Hout; vm_compute;
      [apply list_elem_of_here | apply list_elem_of_further, list_elem_of_here].
  - split; intros Hout.
    + exfalso; apply Hout; vm_compute; apply list_elem_of_here.
    + vm_compute. intros Hin.
      apply elem_of_cons in Hin as [Hin | Hin]; [discriminate |].
      apply list_elem_of_singleton in Hin. discriminate.
Defined.

(** ** C3: generated node ids *)

(** C3, as stated, fails in its second part: an id is made of the position
    of the node, a reading of the clock and a random draw, and nothing
    else; when clock and generator give the same readings in two
    invocations, the second invocation generates the ids of the first
    again. *)
Lemma C3_ids_reused :
  let kg := kg_with (Some [ashwagandha; stress]) (Some [treats_stress]) in
  let st1 := showQueryGraph still_world (Some kg) initial in
  let st2 := showQueryGraph still_world (Some kg) st1 in
  ∃ pn1 pe1 pn2 pe2,
    current_payload st1 = Some (pn1, pe1) ∧
    current_payload st2 = Some (pn2, pe2) ∧
    ids pn1 = [JStr "node_0_1700000000000_0.5"; JStr "node_1_1700000000000_0.5"] ∧
    ids pn2 = ids pn1.
Proof.
  eexists _, _, _, _.
  split; [vm_compute; reflexivity |]. split; [vm_compute; reflexivity |].
  split; reflexivity.
Qed.

(** C3 (amended): in [showQueryGraph] and [fetchFullKG], the ids of the
    processed nodes are pairwise distinct, whatever the original ids are:
    the node at position [j] receives the id built from [j] and from the
    draw of clock and random generator made for it; a [Map] from original
    id to generated id is filled during the pass and gives each kept edge
    its endpoints (for an original id carried by several nodes, the id
    generated for the last of them; the original id when no node carries
    it).  Each invocation consumes draws of its own, and two generated ids
    are equal only if they were generated at the same position from equal
    draws. *)
Theorem C3_node_ids w st nodes edges :
  nodes ≠ [] →
  (∀ kg, kg_visualization kg = Some (Visualization (Some nodes) (Some edges)) →
     ∃ pn pe,
       current_payload (showQueryGraph w (Some kg) st) = Some (pn, pe) ∧
       NoDup (ids pn) ∧
       ids pn = (λ j, JStr (fresh_id "node" j (draws w (tick st + j)))) <$> seq 0 (length nodes) ∧
       edges_mapped nodes pn edges pe ∧
       tick (showQueryGraph w (Some kg) st) = tick st + (length nodes + length pe)) ∧
  (∀ status data,
     str_truthy (fk_error data) = false →
     fk_nodes data = Some nodes → fk_edges data = Some edges →
     let st' := fetchFullKG w (HttpReply true status (inr data)) st in
     ∃ pn pe,
       current_payload st' = Some (pn, pe) ∧
       NoDup (ids pn) ∧
       ids pn = (λ j, JStr (fresh_id "node" j (draws w (tick st + j)))) <$> seq 0 (length nodes) ∧
       edges_mapped nodes pn edges pe ∧
       tick st' = tick st + (length nodes + length pe)) ∧
  (∀ p i d i' d', fresh_id p i d = fresh_id p i' d' → i = i' ∧ d = d').
Proof.
  intros Hne. split; [| split].
  - intros kg Hkg.
    destruct (showQueryGraph_stores w kg st nodes (Some edges) Hkg Hne)
      as (Hp & _ & _ & Ht & _).
    eexists _, _. split; [exact Hp |].
    split; [apply (payload_NoDup w (tick st)), showQueryGraph_node_assigning |].
    split; [apply (payload_ids w (tick st)), showQueryGraph_node_assigning |].
    split; [apply (payload_edges_mapped w (tick st)), showQueryGraph_node_assigning |].
    exact Ht.
  - intros status data Herr Hnodes Hedges.
    destruct (fetchFullKG_stores w status data st nodes Herr Hnodes Hne)
      as (Hp & _ & _ & _ & Ht & _).
    rewrite Hedges in Hp, Ht. eexists _, _. split; [exact Hp |].
    split; [apply (payload_NoDup w (tick st)), fetchFullKG_node_assigning |].
    split; [apply (payload_ids w (tick st)), fetchFullKG_node_assigning |].
    split; [apply (payload_edges_mapped w (tick st)), fetchFullKG_node_assigning |].
    exact Ht.
  - apply fresh_id_inj.
Qed.

(** The statement above, at a sample input: three nodes of which two carry the same original id. *)
Lemma C3_node_ids_witness :
  [ashwagandha; ashwagandha; stress] ≠ [] ∧
  ∃ pn pe,
    current_payload
      (showQueryGraph ticking_world
         (Some (kg_with (Some [ashwagandha; ashwagandha; stress]) (Some [treats_stress])))
         initial) = Some (pn, pe) ∧
    length (ids pn) = 3 ∧ NoDup (ids pn).
Proof.
  split; [done |].
  destruct (C3_node_ids ticking_world initial [ashwagandha; ashwagandha; stress]
              [treats_stress]) as (H & _); [done |].
  destruct (H (kg_with (Some [ashwagandha; ashwagandha; stress]) (Some [treats_stress]))
              eq_refl) as (pn & pe & Hp & Hnd & Hids & _).
  exists pn, pe. split; [exact Hp |]. split; [by rewrite Hids | exact Hnd].
Defined.

(** ** C4: payloads without nodes, payloads without edges *)

Lemma added_messages_app before after extra :
  messages after = (messages before ++ extra)%list → added_messages before after = extra.
Proof. unfold added_messages. intros ->. by rewrite drop_app_length. Qed.

(** C4, as stated, fails on the earlier revision of the component: there a
    full-graph payload with a node and no edge is rejected, with the very
    outcome of a payload without nodes. *)
Lemma C4_earlier_rejects_edgeless :
  let st' := Earlier.fetchFullKG still_world (full_reply (Some [ashwagandha]) (Some [])) initial in
  showGraph st' = false ∧
  fullGraphData st' = None ∧
  added_messages initial st' =
    [full_kg_failure still_world "Received empty knowledge graph data"] ∧
  st' = Earlier.fetchFullKG still_world (full_reply (Some []) (Some [])) initial.
Proof. repeat split. Qed.

Lemma current_payload_Some st pn pe :
  current_payload st = Some (pn, pe) →
  currentGraphData st = Some (Visualization (Some pn) (Some pe)).
Proof.
  unfold current_payload.
  destruct (currentGraphData st) as [[[ns |] [es |]] |]; try done.
  by intros [= -> ->].
Qed.

(** The rendering effect on a stored payload with nodes and an empty edge
    list: the nodes are rendered without edges and nothing is said. *)
Lemma graphEffect_renders_edgeless w st nodes :
  currentGraphData st = Some (Visualization (Some nodes) (Some [])) →
  showGraph st = true → nodes ≠ [] →
  (∀ payload, renderer_error w payload = None) →
  ∃ rn,
    rendered_payload (graphEffect w true st) = Some (rn, []) ∧
    length rn = length nodes ∧
    showGraph (graphEffect w true st) = true ∧
    messages (graphEffect w true st) = messages st.
Proof.
  intros Hdata Hshow Hne Hrender. unfold graphEffect. rewrite Hdata, Hshow. simpl.
  rewrite (length_eqb_0_cons _ Hne).
  pose proof (node_pass_length (graphEffect_node w (tick st)) 0 nodes ∅) as Hlen.
  destruct (array_map_st _ 0 nodes ∅) as [rn m]. simpl in Hlen. simpl.
  rewrite Hrender. simpl. by exists rn.
Qed.

(** C4 (amended): in the current revision, a full-graph payload without
    nodes is an error (an error message is shown, nothing is stored and the
    graph is not opened), while a payload with nodes and no edges is
    accepted: it is stored with its nodes and an empty edge list, the graph
    is opened and no message is shown; and the rendering effect that runs
    then hands these nodes, without edges, to the renderer, keeps the graph
    open and shows no message either.  The earlier revision rejects both,
    with one and the same error, in [fetchFullKG] and again in its
    rendering effect. *)
Theorem C4_empty_payloads w status data st nodes :
  str_truthy (fk_error data) = false →
  fk_nodes data = Some nodes →
  let reply := HttpReply true status (inr data) in
  (nodes = [] →
     added_messages st (fetchFullKG w reply st)
       = [full_kg_failure w "Received empty knowledge graph nodes"] ∧
     currentGraphData (fetchFullKG w reply st) = currentGraphData st ∧
     showGraph (fetchFullKG w reply st) = showGraph st) ∧
  (nodes ≠ [] → edges_or_empty (fk_edges data) = [] →
     ∃ pn,
       current_payload (fetchFullKG w reply st) = Some (pn, []) ∧
       length pn = length nodes ∧
       showGraph (fetchFullKG w reply st) = true ∧
       added_messages st (fetchFullKG w reply st) = [] ∧
       ((∀ payload, renderer_error w payload = None) →
        ∃ rn,
          rendered_payload (graphEffect w true (fetchFullKG w reply st)) = Some (rn, []) ∧
          length rn = length nodes ∧
          showGraph (graphEffect w true (fetchFullKG w reply st)) = true ∧
          added_messages st (graphEffect w true (fetchFullKG w reply st)) = [])) ∧
  (nodes = [] ∨ fk_edges data = Some [] →
     added_messages st (Earlier.fetchFullKG w reply st)
       = [full_kg_failure w "Received empty knowledge graph data"] ∧
     fullGraphData (Earlier.fetchFullKG w reply st) = fullGraphData st ∧
     showGraph (Earlier.fetchFullKG w reply st) = showGraph st) ∧
  (nodes = [] ∨ fk_edges data = Some [] →
   showGraph st = true → graphType st = Some "full" →
   fullGraphData st = Some (Visualization (Some nodes) (fk_edges data)) →
   ∃ st',
     Earlier.graphEffect w true st = inr st' ∧
     added_messages st st' = [no_data_error] ∧
     showGraph st' = false).
Proof.
  intros Herr Hnodes. simpl. split; [| split; [| split]].
  - intros ->. unfold fetchFullKG, fetchFullKG_try. rewrite Herr, Hnodes. simpl.
    split; [| done]. by apply added_messages_app.
  - intros Hne Hedges.
    destruct (fetchFullKG_stores w status data st nodes Herr Hnodes Hne)
      as (Hp & _ & Hshow & _ & _ & Hm).
    rewrite Hedges in Hp. simpl in Hp. eexists. split; [exact Hp |].
    split; [apply node_pass_length |].
    split; [exact Hshow |].
    split; [apply added_messages_app; by rewrite app_nil_r |].
    intros Hrender.
    destruct (graphEffect_renders_edgeless w _ _ (current_payload_Some _ _ _ Hp) Hshow)
      as (rn & Hr & Hlen & Hopen & Hmsg); [| done |].
    { intros Hnil. apply Hne. apply length_zero_iff_nil.
      rewrite <- (node_pass_length (fetchFullKG_node w (tick st)) 0 nodes ∅).
      by rewrite Hnil. }
    exists rn. split; [exact Hr |].
    split; [by rewrite Hlen, node_pass_length |].
    split; [exact Hopen |].
    apply added_messages_app. by rewrite Hmsg, Hm, app_nil_r.
  - intros Hempty. unfold Earlier.fetchFullKG, Earlier.fetchFullKG_try.
    rewrite Herr, Hnodes. simpl.
    destruct Hempty as [-> | ->]; simpl.
    + split; [| done]. by apply added_messages_app.
    + destruct (length nodes =? 0)%nat; simpl;
        (split; [| done]); by apply added_messages_app.
  - intros Hempty Hshow Htype Hfull.
    unfold Earlier.graphEffect, Earlier.selected. rewrite Hshow, Htype, Hfull. simpl.
    destruct Hempty as [-> | ->]; simpl.
    + eexists. split; [done |]. split; [by apply added_messages_app | done].
    + destruct (length nodes =? 0)%nat; simpl;
        (eexists; split; [done |]; split; [by apply added_messages_app | done]).
Qed.

(** The statement above, at a sample input: a full-graph payload with two nodes and no edges. *)
Lemma C4_empty_payloads_witness :
  str_truthy (fk_error (FullKgData None (Some [ashwagandha; stress]) (Some []))) = false ∧
  fk_nodes (FullKgData None (Some [ashwagandha; stress]) (Some [])) = Some [ashwagandha; stress] ∧
  (∃ pn rn,
     current_payload
       (fetchFullKG ticking_world (full_reply (Some [ashwagandha; stress]) (Some [])) initial)
     = Some (pn, []) ∧ length pn = 2 ∧
     rendered_payload
       (graphEffect ticking_world true
          (fetchFullKG ticking_world (full_reply (Some [ashwagandha; stress]) (Some [])) initial))
     = Some (rn, []) ∧ length rn = 2) ∧
  showGraph
    (Earlier.fetchFullKG ticking_world (full_reply (Some [ashwagandha; stress]) (Some [])) initial)
  = false.
Proof.
  split; [done |]. split; [done |].
  destruct (C4_empty_payloads ticking_world 200 (FullKgData None (Some [ashwagandha; stress]) (Some []))
              initial [ashwagandha; stress] eq_refl eq_refl) as (_ & Hcur & Hold & _).
  split.
  - destruct (Hcur ltac:(done) eq_refl) as (pn & Hp & Hlen & _ & _ & Hrun).
    destruct (Hrun ltac:(done)) as (rn & Hr & Hrlen & _).
    by exists pn, rn.
  - destruct (Hold (or_intror eq_refl)) as (_ & _ & Hshow). exact Hshow.
Defined.

(** ** What [send] shows *)

Lemma send_shows_answer w data st :
  can_send st → str_truthy (cd_error data) = false → loggable data →
  added_messages st (send w (chat_reply data) st) =
    [ Message "user" (trim (input st)) "user" None;
      Message "bot" (formatResults data)
        (if strict_eq (cd_confidence data) (JStr "high") then "results" else "no-results")
        (cd_kg_data data) ].
Proof.
  intros [Hin Hload] Herr Hlog. unfold send, chat_reply, send_try.
  rewrite Hin, Hload, Herr. simpl. unfold loggable in Hlog.
  destruct (cd_kg_data data ≫= kg_visualization) as [viz |]; simpl.
  - destruct Hlog as [[ns ->] [es ->]]. simpl.
    apply added_messages_app. simpl. by rewrite <- app_assoc.
  - apply added_messages_app. simpl. by rewrite <- app_assoc.
Qed.

Lemma send_shows_error w data st :
  can_send st → str_truthy (cd_error data) = true →
  added_messages st (send w (chat_reply data) st) =
    [ Message "user" (trim (input st)) "user" None;
      connection_issue w (default "" (cd_error data)) ].
Proof.
  intros [Hin Hload] Herr. unfold send, chat_reply, send_try.
  rewrite Hin, Hload, Herr. simpl.
  apply added_messages_app. simpl. by rewrite <- app_assoc.
Qed.

(** ** C5: what decides that the sources section is shown *)

Lemma kg_sources_shown data :
  has_kg_sources data = true → ∃ rest, kg_sources data = sources_header +:+ rest.
Proof.
  unfold has_kg_sources, kg_sources. destruct (cd_kg_data data) as [kg |]; [| done].
  intros ->. by eexists.
Qed.

Lemma kg_sources_hidden data : has_kg_sources data = false → kg_sources data = "".
Proof.
  unfold has_kg_sources, kg_sources. destruct (cd_kg_data data) as [kg |]; [| done].
  by intros ->.
Qed.

(** C5, as stated, fails in both directions: a reply of low confidence that
    carries an entity is shown with the sources section, and a reply of high
    confidence that carries no structured data is shown without it. *)
Lemma C5_confidence_is_not_the_gate :
  cd_confidence low_with_data ≠ JStr "high" ∧
  formatResults low_with_data =
    "Ashwagandha may help." +:+ nl +:+ nl +:+ "📚 Sources from Knowledge Graph:"
    +:+ nl +:+ "Entities Found:"
    +:+ nl +:+ "- Ashwagandha (Herb): An adaptogen" ∧
  cd_confidence high_without_data = JStr "high" ∧
  formatResults high_without_data = "Ashwagandha may help.".
Proof. repeat split. done. Qed.

(** C5 (amended): the sources section is appended to the displayed answer
    if and only if the reply carries structured data with at least one
    entity or at least one relationship key; the confidence signal has no
    part in the text and only selects the type of the message, [results]
    when it is ['high'] and [no-results] otherwise. *)
Theorem C5_sources_gate w data st :
  can_send st → str_truthy (cd_error data) = false → loggable data →
  formatResults data =
    processResponseText (str_or (cd_response data) "No response available.")
    +:+ kg_sources data ∧
  (has_kg_sources data = true → ∃ rest, kg_sources data = sources_header +:+ rest) ∧
  (has_kg_sources data = false → kg_sources data = "") ∧
  (∀ c, formatResults (with_confidence data c) = formatResults data) ∧
  ∃ type,
    added_messages st (send w (chat_reply data) st) =
      [ Message "user" (trim (input st)) "user" None;
        Message "bot" (formatResults data) type (cd_kg_data data) ] ∧
    (type = "results" ↔ cd_confidence data = JStr "high") ∧
    (type = "no-results" ↔ cd_confidence data ≠ JStr "high").
Proof.
  intros Hsend Herr Hlog.
  split; [unfold formatResults; by rewrite Herr |].
  split; [apply kg_sources_shown |]. split; [apply kg_sources_hidden |].
  split; [done |].
  eexists. split; [by apply send_shows_answer |].
  unfold strict_eq. case_bool_decide; split; split; done.
Qed.

(** The statement above, at a sample input: a reply of low confidence that carries an entity. *)
Lemma C5_sources_gate_witness :
  can_send (asking "What helps with stress?" initial) ∧
  str_truthy (cd_error low_with_data) = false ∧
  loggable low_with_data ∧
  ∃ rest, formatResults low_with_data = "Ashwagandha may help." +:+ sources_header +:+ rest.
Proof.
  split; [by split |]. split; [done |]. split; [done |].
  destruct (C5_sources_gate still_world low_with_data (asking "What helps with stress?" initial))
    as (Hfmt & Hshown & _); [by split | done | done |].
  destruct (Hshown eq_refl) as [rest Hrest]. exists rest.
  rewrite Hfmt, Hrest. reflexivity.
Defined.

(** ** C6: error and response are not shown together *)

Lemma str_truthy_Some s : s ≠ "" → str_truthy (Some s) = true.
Proof. intros Hs. simpl. by rewrite (proj2 (String.eqb_neq s "") Hs). Qed.

Lemma str_truthy_absent o : o = None ∨ o = Some "" → str_truthy o = false.
Proof. by intros [-> | ->]. Qed.

(** C6: when the reply carries an error (an [error] field that holds a
    non-empty text), [formatResults] returns the error text, made of
    [detail] when that holds a non-empty text and of [error] when [detail]
    is missing or empty, and [send] shows the text of [error] in its
    connection message; in both, nothing depends on the [response] field.
    When the reply carries no error ([error] missing or empty), the text is
    built from [response]: from its processed text when it is non-empty,
    and from the stock sentence otherwise. *)
Theorem C6_error_or_response w data st :
  can_send st →
  (∀ e, cd_error data = Some e → e ≠ "" →
     (∀ d, cd_detail data = Some d → d ≠ "" →
        formatResults data =
          "❌ Query Error" +:+ nl +:+ nl +:+ d +:+ nl +:+ nl
          +:+ "Try rephrasing your question or ask about specific herbs like turmeric, ashwagandha, or neem.") ∧
     (cd_detail data = None ∨ cd_detail data = Some "" →
        formatResults data =
          "❌ Query Error" +:+ nl +:+ nl +:+ e +:+ nl +:+ nl
          +:+ "Try rephrasing your question or ask about specific herbs like turmeric, ashwagandha, or neem.") ∧
     added_messages st (send w (chat_reply data) st) =
       [ Message "user" (trim (input st)) "user" None;
         connection_issue w e ] ∧
     ∀ r,
       formatResults (with_response data r) = formatResults data ∧
       send w (chat_reply (with_response data r)) st = send w (chat_reply data) st) ∧
  (cd_error data = None ∨ cd_error data = Some "" →
     (∀ r, cd_response data = Some r → r ≠ "" →
        formatResults data = processResponseText r +:+ kg_sources data) ∧
     (cd_response data = None ∨ cd_response data = Some "" →
        formatResults data =
          processResponseText "No response available." +:+ kg_sources data)).
Proof.
  intros Hsend. split.
  - intros e He Hne.
    assert (str_truthy (cd_error data) = true) as Herr
      by (rewrite He; by apply str_truthy_Some).
    split; [| split; [| split]].
    + intros d Hd Hdne. unfold formatResults, error_text, str_or.
      rewrite Herr, Hd, (str_truthy_Some d Hdne). done.
    + intros Hd. unfold formatResults, error_text, str_or.
      rewrite Herr, (str_truthy_absent _ Hd), He. done.
    + rewrite (send_shows_error w data st Hsend Herr). by rewrite He.
    + intros r. split.
      * unfold formatResults. simpl. by rewrite Herr.
      * destruct Hsend as [Hin Hload]. unfold send, chat_reply, send_try. simpl.
        by rewrite Hin, Hload, Herr.
  - intros Herr%str_truthy_absent. split.
    + intros r Hr Hrne. unfold formatResults, str_or.
      rewrite Herr, Hr, (str_truthy_Some r Hrne). done.
    + intros Hr. unfold formatResults, str_or.
      by rewrite Herr, (str_truthy_absent _ Hr).
Qed.

(** The statement above, at a sample input: a reply that carries an error, a detail and a response. *)
Lemma C6_error_or_response_witness :
  can_send (asking "What helps with stress?" initial) ∧
  formatResults failed_reply =
    "❌ Query Error" +:+ nl +:+ nl +:+ "empty query" +:+ nl +:+ nl
    +:+ "Try rephrasing your question or ask about specific herbs like turmeric, ashwagandha, or neem." ∧
  formatResults (with_response failed_reply None) = formatResults failed_reply.
Proof.
  split; [by split |].
  destruct (C6_error_or_response still_world failed_reply
              (asking "What helps with stress?" initial)) as [Herr _]; [by split |].
  destruct (Herr "Query must not be empty" eq_refl ltac:(done)) as (Hfmt & _ & _ & Hresp).
  split; [by apply (Hfmt "empty query") | apply Hresp].
Defined.

(** ** The console of [fetchFullKG] *)

Lemma fetchFullKG_keep_console l st :
  console (array_filter_st fetchFullKG_keep l st).2 =
    (console st ++ ((λ _, full_kg_edge_warning) <$> List.filter (λ e, negb (edge_valid e)) l))%list.
Proof.
  revert st. induction l as [| e l IH]; intros st; [simpl; by rewrite app_nil_r |].
  cbn [array_filter_st List.filter].
  pose proof (fetchFullKG_keep_valid e st) as Hv.
  assert (console (fetchFullKG_keep e st).2 =
            (console st ++ if edge_valid e then [] else [full_kg_edge_warning])%list) as Hc.
  { rewrite <- Hv. unfold fetchFullKG_keep. simpl.
    destruct (truthy _); simpl; [by rewrite app_nil_r | done]. }
  destruct (fetchFullKG_keep e st) as [keep st1]. simpl in Hv, Hc.
  pose proof (IH st1) as IH'.
  destruct (array_filter_st fetchFullKG_keep l st1) as [xs st2]. simpl in IH'. simpl.
  rewrite IH', Hc. destruct (edge_valid e); simpl; by rewrite <- ?app_assoc, ?app_nil_r.
Qed.

Lemma fetchFullKG_console w status data st nodes :
  str_truthy (fk_error data) = false →
  fk_nodes data = Some nodes → nodes ≠ [] →
  added_console st (fetchFullKG w (HttpReply true status (inr data)) st) =
    (λ _, full_kg_edge_warning)
      <$> List.filter (λ e, negb (edge_valid e)) (edges_or_empty (fk_edges data)).
Proof.
  intros Herr Hnodes Hne. unfold fetchFullKG, fetchFullKG_try. simpl.
  rewrite Herr, Hnodes. rewrite (length_eqb_0_cons _ Hne).
  destruct (array_map_st _ 0 nodes ∅) as [pn m].
  match goal with |- context [array_filter_st ?f ?l ?s] =>
    pose proof (fetchFullKG_keep_console l s) as Hc;
    destruct (array_filter_st f l s) as [kept st1]
  end.
  simpl in Hc. simpl. unfold added_console. simpl. rewrite Hc.
  by rewrite drop_app_length.
Qed.

(** ** C7: every edge filtered out *)

Lemma filter_none_valid edges :
  (∀ e, e ∈ edges → edge_valid e = false) → List.filter edge_valid edges = [].
Proof.
  induction edges as [| e l IH]; intros H; simpl; [done |].
  rewrite (H e (list_elem_of_here _ _)). apply IH.
  intros e' He'. apply H. by apply list_elem_of_further.
Qed.

Lemma filter_all_invalid edges :
  (∀ e, e ∈ edges → edge_valid e = false) →
  List.filter (λ e, negb (edge_valid e)) edges = edges.
Proof.
  induction edges as [| e l IH]; intros H; simpl; [done |].
  rewrite (H e (list_elem_of_here _ _)). simpl. f_equal. apply IH.
  intros e' He'. apply H. by apply list_elem_of_further.
Qed.

(** C7: when edges were received and every one of them is filtered out
    (an endpoint is falsy or both endpoints are the same) while the payload
    has nodes, no path gives up.  [showQueryGraph] stores the nodes with an
    empty edge list, opens the graph and shows one message, the warning.
    The rendering effect renders the nodes with an empty edge list, leaves
    the graph open and shows only warnings, the last of which is that same
    warning (provided the rendering library itself raises no exception).
    [fetchFullKG] stores the nodes with an empty edge list, opens the graph,
    shows no message and writes one warning per edge to the console. *)
Theorem C7_nodes_only w st nodes edges :
  nodes ≠ [] → edges ≠ [] → (∀ e, e ∈ edges → edge_valid e = false) →
  (∀ kg, kg_visualization kg = Some (Visualization (Some nodes) (Some edges)) →
     ∃ pn,
       current_payload (showQueryGraph w (Some kg) st) = Some (pn, []) ∧
       length pn = length nodes ∧
       showGraph (showQueryGraph w (Some kg) st) = true ∧
       added_messages st (showQueryGraph w (Some kg) st) = [no_valid_edges_warning]) ∧
  (currentGraphData st = Some (Visualization (Some nodes) (Some edges)) →
   showGraph st = true →
   (∀ payload, renderer_error w payload = None) →
   ∃ pn extra,
     rendered_payload (graphEffect w true st) = Some (pn, []) ∧
     length pn = length nodes ∧
     showGraph (graphEffect w true st) = true ∧
     added_messages st (graphEffect w true st) = (extra ++ [no_valid_edges_warning])%list ∧
     Forall (λ m, m_type m = "warning") extra) ∧
  (∀ status data,
     str_truthy (fk_error data) = false →
     fk_nodes data = Some nodes → fk_edges data = Some edges →
     ∃ pn,
       current_payload (fetchFullKG w (HttpReply true status (inr data)) st) = Some (pn, []) ∧
       length pn = length nodes ∧
       showGraph (fetchFullKG w (HttpReply true status (inr data)) st) = true ∧
       added_messages st (fetchFullKG w (HttpReply true status (inr data)) st) = [] ∧
       added_console st (fetchFullKG w (HttpReply true status (inr data)) st)
         = (λ _, full_kg_edge_warning) <$> edges).
Proof.
  intros Hne Hedges Hnone. pose proof (filter_none_valid edges Hnone) as Hfilter.
  split; [| split].
  - intros kg Hkg.
    destruct (showQueryGraph_stores w kg st nodes (Some edges) Hkg Hne)
      as (Hp & Hshow & _ & _ & Hm).
    simpl in Hp, Hm. rewrite Hfilter in Hp, Hm. simpl in Hp, Hm.
    rewrite (length_eqb_0_cons _ Hedges) in Hm. simpl in Hm.
    eexists. split; [exact Hp |]. split; [apply node_pass_length |].
    split; [exact Hshow |]. by apply added_messages_app.
  - intros Hdata Hshow Hrender.
    destruct (graphEffect_renders w st nodes edges Hdata Hshow Hne (Hrender _))
      as (Hp & Hshow' & _ & extra & Hw & Hm).
    rewrite Hfilter in Hp, Hm. simpl in Hp, Hm.
    rewrite (length_eqb_0_cons _ Hedges) in Hm. simpl in Hm.
    eexists _, extra. split; [exact Hp |]. split; [apply node_pass_length |].
    split; [exact Hshow' |]. split; [by apply added_messages_app | exact Hw].
  - intros status data Herr Hnodes Hfk.
    destruct (fetchFullKG_stores w status data st nodes Herr Hnodes Hne)
      as (Hp & _ & Hshow & _ & _ & Hm).
    pose proof (fetchFullKG_console w status data st nodes Herr Hnodes Hne) as Hc.
    rewrite Hfk in Hp, Hc. simpl in Hp, Hc.
    rewrite Hfilter in Hp. rewrite (filter_all_invalid edges Hnone) in Hc. simpl in Hp.
    eexists. split; [exact Hp |]. split; [apply node_pass_length |].
    split; [exact Hshow |]. split; [| exact Hc].
    apply added_messages_app. by rewrite app_nil_r.
Qed.

(** The statement above, at a sample input: two nodes and a single edge, a self-loop. *)
Lemma C7_nodes_only_witness :
  [ashwagandha; stress] ≠ [] ∧ [loop_edge] ≠ [] ∧
  (∀ e, e ∈ [loop_edge] → edge_valid e = false) ∧
  added_messages initial
    (showQueryGraph ticking_world
       (Some (kg_with (Some [ashwagandha; stress]) (Some [loop_edge]))) initial)
  = [no_valid_edges_warning].
Proof.
  assert (∀ e, e ∈ [loop_edge] → edge_valid e = false) as Hnone.
  { intros e He. by apply list_elem_of_singleton in He as ->. }
  split; [done |]. split; [done |]. split; [exact Hnone |].
  destruct (C7_nodes_only ticking_world initial [ashwagandha; stress] [loop_edge])
    as (H & _); [done | done | exact Hnone |].
  destruct (H (kg_with (Some [ashwagandha; stress]) (Some [loop_edge])) eq_refl)
    as (pn & _ & _ & _ & Hm).
  exact Hm.
Defined.

(** ** C8: the full-graph path and the per-query path agree *)


(** C8: [fetchFullKG] and [showQueryGraph] apply the same rules.  Their
    node callbacks and their edge callbacks are the same functions, their
    filters keep the same edges, and, given the same nodes and edges in the
    same state, both leave the same payload in [currentGraphData] and
    consume the same number of draws. *)
Theorem C8_same_rules w st kg data status nodes edges :
  kg_visualization kg = Some (Visualization nodes edges) →
  str_truthy (fk_error data) = false →
  fk_nodes data = nodes → fk_edges data = edges →
  (∀ t n index m, fetchFullKG_node w t n index m = showQueryGraph_node w t n index m) ∧
  (∀ e st1 st2, (fetchFullKG_keep e st1).1 = (showQueryGraph_keep e st2).1) ∧
  (∀ t m index e, fetchFullKG_edge w t m index e = showQueryGraph_edge w t m index e) ∧
  currentGraphData (fetchFullKG w (HttpReply true status (inr data)) st)
    = currentGraphData (showQueryGraph w (Some kg) st) ∧
  tick (fetchFullKG w (HttpReply true status (inr data)) st)
    = tick (showQueryGraph w (Some kg) st).
Proof.
  intros Hkg Herr Hnodes Hedges.
  split; [done |].
  split; [intros; by rewrite fetchFullKG_keep_valid, showQueryGraph_keep_valid |].
  split; [done |].
  destruct nodes as [[| n l] |].
  - unfold fetchFullKG, fetchFullKG_try, showQueryGraph.
    rewrite Herr, Hnodes. simpl. by rewrite Hkg.
  - destruct (fetchFullKG_stores w status data st (n :: l) Herr Hnodes)
      as (Hp & _ & _ & _ & Ht & _); [done |].
    destruct (showQueryGraph_stores w kg st (n :: l) edges Hkg)
      as (Hp' & _ & _ & Ht' & _); [done |].
    rewrite Hedges in Hp, Ht.
    apply current_payload_Some in Hp. apply current_payload_Some in Hp'.
    split; [by rewrite Hp, Hp' | by rewrite Ht, Ht'].
  - unfold fetchFullKG, fetchFullKG_try, showQueryGraph.
    rewrite Herr, Hnodes. simpl. by rewrite Hkg.
Qed.

(** The statement above, at a sample input: two nodes and three edges, one a self-loop and one dangling. *)
Lemma C8_same_rules_witness :
  let nodes := Some [ashwagandha; stress] in
  let edges := Some [treats_stress; loop_edge; treats_anxiety] in
  kg_visualization (kg_with nodes edges) = Some (Visualization nodes edges) ∧
  str_truthy (fk_error (FullKgData None nodes edges)) = false ∧
  fk_nodes (FullKgData None nodes edges) = nodes ∧
  fk_edges (FullKgData None nodes edges) = edges ∧
  currentGraphData (fetchFullKG ticking_world (full_reply nodes edges) initial)
    = currentGraphData (showQueryGraph ticking_world (Some (kg_with nodes edges)) initial).
Proof.
  simpl. repeat (split; [done |]).
  apply (C8_same_rules ticking_world initial
           (kg_with (Some [ashwagandha; stress]) (Some [treats_stress; loop_edge; treats_anxiety]))
           (FullKgData None (Some [ashwagandha; stress])
              (Some [treats_stress; loop_edge; treats_anxiety]))
           200 (Some [ashwagandha; stress]) (Some [treats_stress; loop_edge; treats_anxiety]));
    done.
Defined.

(** ** C9: the render size *)

Lemma node_pass_Forall2 {St : Type} (P : node → node → Prop)
    (f : node → nat → St → node * St) i l s :
  (∀ n i s, P n (f n i s).1) → Forall2 P l (array_map_st f i l s).1.
Proof.
  intros Hf. revert i s. induction l as [| n l IH]; intros i s; simpl; [constructor |].
  pose proof (Hf n i s) as Hn. destruct (f n i s) as [y s1].
  pose proof (IH (S i) s1) as IH'.
  destruct (array_map_st f (S i) l s1) as [ys s2]. by constructor.
Qed.

Lemma Earlier_graphEffect_renders w st nodes edges :
  showGraph st = true → graphType st = Some "full" →
  fullGraphData st = Some (Visualization (Some nodes) (Some edges)) →
  nodes ≠ [] → edges ≠ [] →
  (∀ payload, renderer_error w payload = None) →
  ∃ st',
    Earlier.graphEffect w true st = inr st' ∧
    rendered_payload st' = Some (Earlier.graphEffect_node <$> nodes, edges).
Proof.
  intros Hshow Htype Hfull Hn He Hrender.
  unfold Earlier.graphEffect, Earlier.selected. rewrite Hshow, Htype, Hfull. simpl.
  rewrite (length_eqb_0_cons _ Hn), (length_eqb_0_cons _ He).
  specialize (Hrender (GraphData (Earlier.graphEffect_node <$> nodes) edges)).
  unfold renderer_error in Hrender.
  destruct (dataset_error w _); [done |]. rewrite Hrender. by eexists.
Qed.

(** C9: the size given to a node is a function of its group alone: 25
    for the group ['herbs'] and 20, which is less, for every other group,
    so that nodes of the same group get the same size.  The rendering
    effect of the current revision and that of the earlier one both give
    every node they render this size and leave its group as it is. *)
Theorem C9_render_size w st nodes edges :
  nodes ≠ [] → edges ≠ [] → showGraph st = true →
  (∀ payload, renderer_error w payload = None) →
  (∀ g, g ≠ JStr "herbs" → (render_size g < render_size (JStr "herbs"))%Z) ∧
  (∀ n1 n2, node_group n1 = node_group n2 →
     render_size (node_group n1) = render_size (node_group n2)) ∧
  (currentGraphData st = Some (Visualization (Some nodes) (Some edges)) →
   ∃ pn pe,
     rendered_payload (graphEffect w true st) = Some (pn, pe) ∧
     Forall2 (λ n n', node_group n' = node_group n ∧
                      node_size n' = JNum (render_size (node_group n))) nodes pn) ∧
  (graphType st = Some "full" →
   fullGraphData st = Some (Visualization (Some nodes) (Some edges)) →
   ∃ st' pn pe,
     Earlier.graphEffect w true st = inr st' ∧
     rendered_payload st' = Some (pn, pe) ∧
     Forall2 (λ n n', node_group n' = node_group n ∧
                      node_size n' = JNum (render_size (node_group n))) nodes pn).
Proof.
  intros Hn He Hshow Hrender.
  split.
  { intros g Hg. unfold render_size, strict_eq.
    rewrite bool_decide_eq_false_2 by done. by rewrite bool_decide_eq_true_2. }
  split; [by intros n1 n2 -> |].
  split.
  - intros Hdata.
    destruct (graphEffect_renders w st nodes edges Hdata Hshow Hn (Hrender _)) as (Hp & _).
    eexists _, _. split; [exact Hp |]. by apply node_pass_Forall2.
  - intros Htype Hfull.
    destruct (Earlier_graphEffect_renders w st nodes edges Hshow Htype Hfull Hn He Hrender)
      as (st' & Hrun & Hp).
    eexists st', _, _. split; [exact Hrun |]. split; [exact Hp |].
    apply Forall2_fmap_r, Forall_Forall2_diag, Forall_forall. done.
Qed.

(** The statement above, at a sample input: a herb and a condition joined by an edge. *)
Lemma C9_render_size_witness :
  [ashwagandha; stress] ≠ [] ∧ [treats_stress] ≠ [] ∧
  showGraph (showing (Some [ashwagandha; stress]) (Some [treats_stress]) initial) = true ∧
  (∀ payload, renderer_error ticking_world payload = None) ∧
  ∃ pn pe,
    rendered_payload
      (graphEffect ticking_world true
         (showing (Some [ashwagandha; stress]) (Some [treats_stress]) initial))
    = Some (pn, pe) ∧
    node_size <$> pn = [JNum 25; JNum 20].
Proof.
  split; [done |]. split; [done |]. split; [done |]. split; [done |].
  destruct (C9_render_size ticking_world
              (showing (Some [ashwagandha; stress]) (Some [treats_stress]) initial)
              [ashwagandha; stress] [treats_stress]) as (_ & _ & H & _); try done.
  destruct (H eq_refl) as (pn & pe & Hp & Hsz). exists pn, pe. split; [exact Hp |].
  apply Forall2_cons_inv_l in Hsz as (n1 & pn1 & [_ H1] & Hsz & ->).
  apply Forall2_cons_inv_l in Hsz as (n2 & pn2 & [_ H2] & Hsz & ->).
  apply Forall2_nil_inv_l in Hsz as ->. simpl. by rewrite H1, H2.
Defined.

(** ** The text functions on sample inputs *)

Example processResponseText_sample :
  processResponseText "Use **ashwagandha** and *tulsi* * daily"
  = "Use <b>ashwagandha</b> and <b>tulsi</b>  daily".
Proof. reflexivity. Qed.

(** A pair of markers does not match across a line break; the second
    [replace] then pairs the asterisks that remain on each line. *)
Example processResponseText_lines :
  processResponseText ("**a" +:+ nl +:+ "b** *c*")
  = "<b></b>a" +:+ nl +:+ "b<b></b> <b>c</b>".
Proof. reflexivity. Qed.

Example format_relationship_sample :
  format_relationship ("has_sideEffect", Some [RelItem "Neem" "Nausea" "hasSideEffect"])
  = nl +:+ "- has side Effect: Neem -> Nausea (hasSideEffect)".
Proof. reflexivity. Qed.

Example fresh_id_sample :
  fresh_id "node" 12 (Draw 1700000000000 "0.8414709848078965")
  = "node_12_1700000000000_0.8414709848078965".
Proof. reflexivity. Qed.

(** ** C10: [processResponseText] *)

Lemma remove_char_absent c s : contains_char c (remove_char c s) = false.
Proof.
  induction s as [| a s IH]; simpl; [done |].
  destruct (Ascii.eqb a c) eqn:E; simpl; [done |]. by rewrite E.
Qed.

Lemma remove_char_id c s : contains_char c s = false → remove_char c s = s.
Proof.
  induction s as [| a s IH]; simpl; [done |].
  intros [-> Hs]%orb_false_iff. by rewrite IH.
Qed.

(** A pattern that opens with a character absent from [s] matches nowhere
    in [s]. *)
Lemma strip_prefix_absent c p s :
  contains_char c s = false → strip_prefix (String c p) s = None.
Proof.
  destruct s as [| a s]; simpl; [done |].
  intros [Ha _]%orb_false_iff. rewrite Ascii.eqb_sym. by rewrite Ha.
Qed.

Lemma replace_bold_absent fuel c p closing s :
  contains_char c s = false → replace_bold_fuel fuel (String c p) closing s = s.
Proof.
  revert s. induction fuel as [| fuel IH]; intros s Hs; [done |].
  destruct s as [| a s]; [done |].
  cbn [replace_bold_fuel]. rewrite (strip_prefix_absent c p _ Hs). simpl.
  simpl in Hs. apply orb_false_iff in Hs as [_ Hs]. by rewrite IH.
Qed.

Lemma processResponseText_fixed s :
  contains_char "*" s = false → processResponseText s = s.
Proof.
  intros Hs. unfold processResponseText, replace_bold.
  rewrite (replace_bold_absent _ "*" "*" "**" s Hs).
  rewrite (replace_bold_absent _ "*" "" "*" s Hs).
  by apply remove_char_id.
Qed.

(** The fuel given by [replace_bold] is enough: more fuel does not change
    the result. *)
Lemma strip_prefix_length p s r :
  strip_prefix p s = Some r → String.length s = String.length p + String.length r.
Proof.
  revert s. induction p as [| a p IH]; intros s; simpl; [by intros [= ->] |].
  destruct s as [| b s]; [done |]. destruct (Ascii.eqb a b); [| done].
  intros H%IH. simpl. by rewrite H.
Qed.

Lemma lazy_until_length closing s cap rest :
  lazy_until closing s = Some (cap, rest) → (String.length rest ≤ String.length s)%nat.
Proof.
  revert cap rest. induction s as [| a s IH]; intros cap rest; cbn [lazy_until].
  - destruct (strip_prefix closing "") as [r |] eqn:E; [| done].
    intros [= _ <-]. apply strip_prefix_length in E. simpl in E. lia.
  - destruct (strip_prefix closing (String a s)) as [r |] eqn:E.
    + intros [= _ <-]. apply strip_prefix_length in E. simpl in E. simpl. lia.
    + destruct (line_terminator_at (String a s)); [done |].
      destruct (lazy_until closing s) as [[cap' rest'] |]; [| done].
      intros [= _ <-]. specialize (IH cap' rest' eq_refl). simpl. lia.
Qed.

Lemma replace_bold_fuel_enough n m a p closing s :
  (String.length s ≤ n)%nat → (String.length s ≤ m)%nat →
  replace_bold_fuel n (String a p) closing s = replace_bold_fuel m (String a p) closing s.
Proof.
  revert m s. induction n as [| n IH]; intros m s Hn Hm.
  - destruct s; [| simpl in Hn; lia]. by destruct m.
  - destruct s as [| c s]; [by destruct m |].
    destruct m as [| m]; [simpl in Hm; lia |].
    cbn [replace_bold_fuel]. simpl in Hn, Hm.
    destruct (strip_prefix (String a p) (String c s)) as [r |] eqn:E; simpl.
    + apply strip_prefix_length in E. simpl in E.
      destruct (lazy_until closing r) as [[cap rest] |] eqn:El.
      * apply lazy_until_length in El. do 3 f_equal. apply IH; lia.
      * f_equal. apply IH; lia.
    + f_equal. apply IH; lia.
Qed.

(** C10: [processResponseText] leaves no asterisk in its result, and
    applying it to its own result changes nothing. *)
Theorem C10_processResponseText_idempotent text :
  processResponseText (processResponseText text) = processResponseText text ∧
  contains_char "*" (processResponseText text) = false.
Proof.
  assert (contains_char "*" (processResponseText text) = false) as Hno
    by apply remove_char_absent.
  split; [by apply processResponseText_fixed | exact Hno].
Qed.

(** * Further properties of the component *)

(** ** Sending *)

Lemma send_disabled_false st : send_disabled st = false → can_send st.
Proof.
  unfold send_disabled, can_send. intros [H1 H2]%orb_false_iff. done.
Qed.

Lemma send_fields w reply st :
  can_send st →
  input (send w reply st) = "" ∧ loading (send w reply st) = false ∧
  isTyping (send w reply st) = false ∧ showGraph (send w reply st) = false ∧
  currentGraphData (send w reply st) = currentGraphData st ∧
  fullGraphData (send w reply st) = fullGraphData st ∧
  tick (send w reply st) = tick st.
Proof.
  intros [Hin Hload]. unfold send. rewrite Hin, Hload. simpl.
  destruct (send_try reply _) as [e | st'] eqn:E; simpl; [done |].
  unfold send_try in E.
  destruct reply as [m | ok status [m | data]]; simpl in E; try done;
    destruct ok; simpl in E; try done.
  destruct (str_truthy (cd_error data)); [done |].
  destruct (cd_kg_data data ≫= kg_visualization) as [viz |]; simpl in E.
  - destruct (vis_nodes viz), (vis_edges viz); try done. by injection E as <-.
  - by injection E as <-.
Qed.

Lemma send_failure w reply st e :
  can_send st →
  send_try reply
    (setShowGraph false (setIsTyping true (setLoading true (setInput ""
       (add_message (Message "user" (trim (input st)) "user" None) st))))) = inl e →
  added_messages st (send w reply st) =
    [Message "user" (trim (input st)) "user" None; connection_issue w e].
Proof.
  intros [Hin Hload] E. unfold send. rewrite Hin, Hload. simpl. rewrite E.
  apply added_messages_app. simpl. by rewrite <- app_assoc.
Qed.

Lemma loggable_dec data : Decision (loggable data).
Proof.
  unfold loggable. destruct (cd_kg_data data ≫= kg_visualization); apply _.
Defined.

Lemma send_answer w status data st :
  can_send st → str_truthy (cd_error data) = false → loggable data →
  added_messages st (send w (HttpReply true status (inr data)) st) =
    [ Message "user" (trim (input st)) "user" None;
      Message "bot" (formatResults data)
        (if strict_eq (cd_confidence data) (JStr "high") then "results" else "no-results")
        (cd_kg_data data) ].
Proof.
  intros [Hin Hload] Herr Hlog. unfold send, send_try.
  rewrite Hin, Hload, Herr. simpl. unfold loggable in Hlog.
  destruct (cd_kg_data data ≫= kg_visualization) as [viz |]; simpl.
  - destruct Hlog as [[ns ->] [es ->]]. simpl.
    apply added_messages_app. simpl. by rewrite <- app_assoc.
  - apply added_messages_app. simpl. by rewrite <- app_assoc.
Qed.

(** X1: [send] does nothing while the send button is disabled (blank input
    or a request under way).  Otherwise it clears the input, closes the
    graph, ends with [loading] and [isTyping] off, leaves the graph data and
    the draws alone, and adds exactly two messages: the trimmed question,
    and one message from the bot, which is either the connection message
    built from the text of an exception, or the formatted answer; the
    answer only for a reply with an ok status whose body parsed, carries
    no error, and whose visualization, if any, has both its arrays. *)
Theorem X1_send_outcome w reply st :
  (send_disabled st = true → send w reply st = st) ∧
  (send_disabled st = false →
     input (send w reply st) = "" ∧
     loading (send w reply st) = false ∧
     isTyping (send w reply st) = false ∧
     showGraph (send w reply st) = false ∧
     currentGraphData (send w reply st) = currentGraphData st ∧
     tick (send w reply st) = tick st ∧
     ∃ botMsg,
       added_messages st (send w reply st) =
         [Message "user" (trim (input st)) "user" None; botMsg] ∧
       ((∃ e, botMsg = connection_issue w e) ∨
        (∃ status data,
           reply = HttpReply true status (inr data) ∧
           str_truthy (cd_error data) = false ∧ loggable data ∧
           botMsg =
             Message "bot" (formatResults data)
               (if strict_eq (cd_confidence data) (JStr "high") then "results" else "no-results")
               (cd_kg_data data)))).
Proof.
  split.
  - unfold send_disabled, send. rewrite orb_comm. by intros ->.
  - intros Hcan%send_disabled_false.
    destruct (send_fields w reply st Hcan) as (? & ? & ? & ? & ? & _ & ?).
    do 6 (split; [done |]).
    pose proof (send_failure w reply st) as Hfail.
    pose proof (send_answer w) as Hans.
    destruct reply as [m | [|] status [m | data]];
      try (eexists; split; [by apply Hfail | left; by eexists]).
    destruct (str_truthy (cd_error data)) eqn:Herr.
    { eexists. split; [apply Hfail; [done |]; simpl; by rewrite Herr | left; by eexists]. }
    destruct (loggable_dec data) as [Hlog | Hlog].
    + eexists. split; [by apply Hans |]. right. by exists status, data.
    + eexists. split; [| left; by eexists]. apply Hfail; [done |]. simpl. rewrite Herr.
      unfold loggable in Hlog.
      destruct (cd_kg_data data ≫= kg_visualization) as [viz |]; simpl; [| done].
      destruct (vis_nodes viz), (vis_edges viz); try done.
      exfalso. apply Hlog. by split.
Qed.

(** X2: the debug logging of [send] reads [nodes.map] and [edges.map] of
    the visualization.  A reply that carries no error but whose
    visualization lacks one of the two arrays therefore raises a
    [TypeError] inside the [try] block: instead of the answer, the user is
    shown the connection message with the text of some exception, of type
    [error] and without a button for the graph; and what [send] does is the
    same whatever the response and the confidence of the reply are. *)
Theorem X2_logging_loses_answer w status data st viz :
  can_send st →
  str_truthy (cd_error data) = false →
  cd_kg_data data ≫= kg_visualization = Some viz →
  vis_nodes viz = None ∨ vis_edges viz = None →
  (∃ e,
     added_messages st (send w (HttpReply true status (inr data)) st) =
       [ Message "user" (trim (input st)) "user" None;
         connection_issue w e ] ∧
     m_type (connection_issue w e) = "error" ∧
     view_graph_button (connection_issue w e) = false) ∧
  (∀ r c,
     send w (HttpReply true status (inr (with_response (with_confidence data c) r))) st
     = send w (HttpReply true status (inr data)) st).
Proof.
  intros Hcan Herr Hviz Hmiss. split.
  - exists type_error_map. split; [| done].
    apply send_failure; [done |]. simpl. rewrite Herr, Hviz.
    destruct Hmiss as [-> | ->]; [done |]. by destruct (vis_nodes viz).
  - intros r c. destruct Hcan as [Hin Hload]. unfold send. rewrite Hin, Hload. simpl.
    rewrite Herr, Hviz.
    destruct Hmiss as [-> | ->]; [done |]. by destruct (vis_nodes viz).
Qed.

(** The statement above, at a sample input: an answer of high confidence
    whose visualization has a node and no [edges] field. *)
Lemma X2_logging_loses_answer_witness :
  can_send (asking "What helps with stress?" initial) ∧
  ∃ e,
    added_messages (asking "What helps with stress?" initial)
      (send still_world (HttpReply true 200 (inr answer_without_edges))
         (asking "What helps with stress?" initial)) =
      [ Message "user" "What helps with stress?" "user" None;
        connection_issue still_world e ].
Proof.
  split; [by split |].
  destruct (X2_logging_loses_answer still_world 200 answer_without_edges
              (asking "What helps with stress?" initial)
              (Visualization (Some [ashwagandha]) None)) as [(e & He & _) _];
    [by split | done | done | by right |].
  by exists e.
Defined.

(** ** Outcomes of the graph operations *)

Lemma fetchFullKG_failure w reply st e :
  fetchFullKG_try w reply (setGraphLoading true st) = inl e →
  graphLoading (fetchFullKG w reply st) = false ∧
  added_messages st (fetchFullKG w reply st) = [full_kg_failure w e] ∧
  currentGraphData (fetchFullKG w reply st) = currentGraphData st ∧
  fullGraphData (fetchFullKG w reply st) = fullGraphData st ∧
  showGraph (fetchFullKG w reply st) = showGraph st ∧
  graphType (fetchFullKG w reply st) = graphType st ∧
  tick (fetchFullKG w reply st) = tick st.
Proof.
  intros E. unfold fetchFullKG. rewrite E. simpl.
  split; [done |]. split; [by apply added_messages_app | done].
Qed.

(** X3: whatever the reply, [fetchFullKG] ends with [graphLoading] off, and
    it either fails or succeeds as a whole.  When it fails (rejected
    request, status not ok, body that does not parse, [error] field, nodes
    missing or empty) it shows one message, the failure notice with the
    text of the exception, and leaves the stored graphs, the open or closed
    graph, its type and the draws as they were.  When it succeeds it stores
    one and the same non-empty payload as current and as full graph, opens
    the graph with type ['full'] and shows no message. *)
Theorem X3_fetchFullKG_outcome w reply st :
  graphLoading (fetchFullKG w reply st) = false ∧
  ((∃ e,
      added_messages st (fetchFullKG w reply st) = [full_kg_failure w e] ∧
      currentGraphData (fetchFullKG w reply st) = currentGraphData st ∧
      fullGraphData (fetchFullKG w reply st) = fullGraphData st ∧
      showGraph (fetchFullKG w reply st) = showGraph st ∧
      graphType (fetchFullKG w reply st) = graphType st ∧
      tick (fetchFullKG w reply st) = tick st) ∨
   (∃ pn pe,
      current_payload (fetchFullKG w reply st) = Some (pn, pe) ∧
      pn ≠ [] ∧
      fullGraphData (fetchFullKG w reply st) = currentGraphData (fetchFullKG w reply st) ∧
      showGraph (fetchFullKG w reply st) = true ∧
      graphType (fetchFullKG w reply st) = Some "full" ∧
      added_messages st (fetchFullKG w reply st) = [])).
Proof.
  assert (∀ e, fetchFullKG_try w reply (setGraphLoading true st) = inl e →
               graphLoading (fetchFullKG w reply st) = false ∧
               ((∃ e,
                   added_messages st (fetchFullKG w reply st) = [full_kg_failure w e] ∧
                   currentGraphData (fetchFullKG w reply st) = currentGraphData st ∧
                   fullGraphData (fetchFullKG w reply st) = fullGraphData st ∧
                   showGraph (fetchFullKG w reply st) = showGraph st ∧
                   graphType (fetchFullKG w reply st) = graphType st ∧
                   tick (fetchFullKG w reply st) = tick st) ∨
                (∃ pn pe,
                   current_payload (fetchFullKG w reply st) = Some (pn, pe) ∧
                   pn ≠ [] ∧
                   fullGraphData (fetchFullKG w reply st)
                     = currentGraphData (fetchFullKG w reply st) ∧
                   showGraph (fetchFullKG w reply st) = true ∧
                   graphType (fetchFullKG w reply st) = Some "full" ∧
                   added_messages st (fetchFullKG w reply st) = []))) as Hfail.
  { intros e E. destruct (fetchFullKG_failure w reply st e E) as (? & ?).
    split; [done |]. left. by exists e. }
  destruct reply as [m | [|] status [m | data]]; try (by eapply Hfail).
  destruct (str_truthy (fk_error data)) eqn:Herr;
    [eapply Hfail; simpl; by rewrite Herr |].
  destruct (fk_nodes data) as [[| n nodes] |] eqn:Hnodes;
    try (eapply Hfail; simpl; by rewrite Herr, Hnodes).
  destruct (fetchFullKG_stores w status data st (n :: nodes) Herr Hnodes)
    as (Hp & Hfull & Hshow & Htype & _ & Hm); [done |].
  split; [done |]. right. eexists _, _. split; [exact Hp |].
  split.
  { intros Hnil. apply (f_equal length) in Hnil. by rewrite node_pass_length in Hnil. }
  do 3 (split; [done |]). apply added_messages_app. by rewrite app_nil_r.
Qed.

Lemma showQueryGraph_network w kgData st : network (showQueryGraph w kgData st) = None.
Proof.
  unfold showQueryGraph.
  destruct (kgData ≫= kg_visualization) as [viz |]; [| done].
  destruct (vis_nodes viz) as [nodes |]; [| done].
  destruct (length nodes =? 0)%nat; [done |].
  destruct (array_map_st _ 0 nodes ∅) as [pn m].
  destruct (array_filter_st _ _ _) as [kept st1] eqn:E.
  assert (network st1 = None) as Hn.
  { pose proof (array_filter_st_snd showQueryGraph_keep
                  (λ s s', network s' = network s)
                  (edges_or_empty (vis_edges viz))
                  (destroy_network (console_out LogLevel "Attempting to show query graph:" st)))
      as H.
    rewrite E in H. simpl in H. rewrite H; [done | done | congruence |].
    intros e s. unfold showQueryGraph_keep. by case_match. }
  by destruct (has_edges _ && _).
Qed.

(** X4: [showQueryGraph] always discards the live network, and it either
    fails or succeeds as a whole.  When it fails (no data, no
    visualization, nodes missing or empty) it shows one message of type
    [error] and leaves the stored graph, the open or closed graph, its type
    and the draws as they were.  When it succeeds it stores a payload with
    at least one node, opens the graph with type ['query'] and shows at
    most warnings. *)
Theorem X4_showQueryGraph_outcome w kgData st :
  network (showQueryGraph w kgData st) = None ∧
  ((∃ e,
      added_messages st (showQueryGraph w kgData st) = [e] ∧
      m_type e = "error" ∧
      currentGraphData (showQueryGraph w kgData st) = currentGraphData st ∧
      showGraph (showQueryGraph w kgData st) = showGraph st ∧
      graphType (showQueryGraph w kgData st) = graphType st ∧
      tick (showQueryGraph w kgData st) = tick st) ∨
   (∃ pn pe,
      current_payload (showQueryGraph w kgData st) = Some (pn, pe) ∧
      pn ≠ [] ∧
      showGraph (showQueryGraph w kgData st) = true ∧
      graphType (showQueryGraph w kgData st) = Some "query" ∧
      Forall (λ m, m_type m = "warning") (added_messages st (showQueryGraph w kgData st)))).
Proof.
  split; [apply showQueryGraph_network |].
  destruct kgData as [kg |];
    [| left; eexists; split; [by apply added_messages_app | done]].
  destruct (kg_visualization kg) as [[[[| n nodes] |] edges] |] eqn:Hviz.
  - left. unfold showQueryGraph. simpl. rewrite Hviz. simpl.
    eexists; split; [by apply added_messages_app | done].
  - destruct (showQueryGraph_stores w kg st (n :: nodes) edges Hviz)
      as (Hp & Hshow & Htype & _ & Hm); [done |].
    right. eexists _, _. split; [exact Hp |]. split.
    { intros Hnil. apply (f_equal length) in Hnil. by rewrite node_pass_length in Hnil. }
    do 2 (split; [done |]).
    rewrite (added_messages_app _ _ _ Hm).
    destruct (has_edges edges && _); by repeat constructor.
  - left. unfold showQueryGraph. simpl. rewrite Hviz. simpl.
    eexists; split; [by apply added_messages_app | done].
  - left. unfold showQueryGraph. simpl. rewrite Hviz. simpl.
    eexists; split; [by apply added_messages_app | done].
Qed.

(** X5: the [View Knowledge Graph] button is rendered for a message only
    when its visualization has at least one node; so clicking it, which
    calls [showQueryGraph] on the data of that message, never meets one of
    the failures of [showQueryGraph]: the graph is opened on as many nodes
    as the message carries and at most warnings are shown. *)
Theorem X5_button_opens_graph w m st :
  view_graph_button m = true →
  ∃ nodes pn pe,
    (m_kg_data m ≫= kg_visualization) ≫= vis_nodes = Some nodes ∧
    current_payload (showQueryGraph w (m_kg_data m) st) = Some (pn, pe) ∧
    length pn = length nodes ∧
    showGraph (showQueryGraph w (m_kg_data m) st) = true ∧
    Forall (λ m, m_type m = "warning") (added_messages st (showQueryGraph w (m_kg_data m) st)).
Proof.
  unfold view_graph_button. intros Hb.
  destruct (m_kg_data m) as [kg |]; [| done]. simpl in *.
  destruct (kg_visualization kg) as [[nodes edges] |] eqn:Hviz; [| done]. simpl in *.
  destruct nodes as [nodes |]; [| done].
  assert (nodes ≠ []) as Hne by (by destruct nodes).
  destruct (showQueryGraph_stores w kg st nodes edges Hviz Hne)
    as (Hp & Hshow & _ & _ & Hm).
  eexists nodes, _, _. split; [done |]. split; [exact Hp |].
  split; [apply node_pass_length |]. split; [done |].
  rewrite (added_messages_app _ _ _ Hm).
  destruct (has_edges edges && _); by repeat constructor.
Qed.

(** The statement above, at a sample input: an answer that carries two
    nodes and an edge. *)
Lemma X5_button_opens_graph_witness :
  let m := Message "bot" "Ashwagandha may help." "results"
             (Some (kg_with (Some [ashwagandha; stress]) (Some [treats_stress]))) in
  view_graph_button m = true ∧
  showGraph (showQueryGraph ticking_world (m_kg_data m) initial) = true.
Proof.
  simpl. split; [done |].
  destruct (X5_button_opens_graph ticking_world
              (Message "bot" "Ashwagandha may help." "results"
                 (Some (kg_with (Some [ashwagandha; stress]) (Some [treats_stress]))))
              initial eq_refl) as (nodes & pn & pe & _ & _ & _ & Hshow & _).
  exact Hshow.
Defined.

Lemma graphEffect_keep_keeps l st :
  let st1 := (array_filter_st graphEffect_keep l st).2 in
  currentGraphData st1 = currentGraphData st ∧ fullGraphData st1 = fullGraphData st ∧
  graphType st1 = graphType st ∧ network st1 = network st.
Proof.
  simpl.
  apply (array_filter_st_snd graphEffect_keep
           (λ s s', currentGraphData s' = currentGraphData s ∧
                    fullGraphData s' = fullGraphData s ∧
                    graphType s' = graphType s ∧ network s' = network s)).
  - done.
  - intros s1 s2 s3 (? & ? & ? & ?) (? & ? & ? & ?). repeat split; congruence.
  - intros e s. unfold graphEffect_keep. by repeat case_match.
Qed.

(** X6: when the rendering effect runs (the graph is open, its container
    is mounted and there is a payload), it never touches the stored graphs
    or the graph type, and it ends in one of two ways.  Either a network
    holds the processed payload, the graph stays open and only warnings
    were shown; or there is no network, the graph has been closed, and the
    last message shown is of type [error], preceded at most by warnings. *)
Theorem X6_graphEffect_outcome w st data :
  showGraph st = true → currentGraphData st = Some data →
  currentGraphData (graphEffect w true st) = currentGraphData st ∧
  fullGraphData (graphEffect w true st) = fullGraphData st ∧
  graphType (graphEffect w true st) = graphType st ∧
  ((is_Some (network (graphEffect w true st)) ∧
    showGraph (graphEffect w true st) = true ∧
    Forall (λ m, m_type m = "warning") (added_messages st (graphEffect w true st))) ∨
   (network (graphEffect w true st) = None ∧
    showGraph (graphEffect w true st) = false ∧
    ∃ extra e,
      added_messages st (graphEffect w true st) = (extra ++ [e])%list ∧
      m_type e = "error" ∧
      Forall (λ m, m_type m = "warning") extra)).
Proof.
  intros Hshow Hdata. unfold graphEffect. rewrite Hdata, Hshow. simpl.
  destruct (vis_nodes data) as [nodes |]; simpl.
  2: { do 3 (split; [done |]). right. do 2 (split; [done |]).
       eexists [], _. split; [by apply added_messages_app | by split]. }
  destruct (length nodes =? 0)%nat.
  { do 3 (split; [done |]). right. do 2 (split; [done |]).
    eexists [], _. split; [by apply added_messages_app | by split]. }
  destruct (array_map_st _ 0 nodes ∅) as [pn m].
  match goal with |- context [array_filter_st ?f ?l ?s] =>
    pose proof (graphEffect_keep_warned l s) as (Ht & Hs & extra & Hm & Hw);
    pose proof (graphEffect_keep_keeps l s) as (Hc & Hfu & Hty & Hnet);
    destruct (array_filter_st f l s) as [kept st1]
  end.
  simpl in Ht, Hs, Hm, Hc, Hfu, Hty, Hnet.
  destruct (vis_edges data) as [edges |]; simpl.
  2: { do 3 (split; [congruence |]). right. do 2 (split; [done |]).
       eexists extra, _.
       split; [apply added_messages_app; simpl; by rewrite Hm, <- app_assoc | by split]. }
  set (processedEdges := imap _ kept).
  destruct (negb (length edges =? 0)%nat && (length processedEdges =? 0)%nat); simpl;
    destruct (renderer_error w _) as [e |]; simpl; (do 3 (split; [congruence |])).
  - right. do 2 (split; [done |]). eexists (extra ++ [no_valid_edges_warning])%list, _.
    split; [apply added_messages_app; simpl; by rewrite Hm, <- !app_assoc |].
    split; [done |]. apply Forall_app. split; [done | by repeat constructor].
  - left. split; [by eexists |]. split; [by rewrite Hs |].
    erewrite added_messages_app; [| simpl; by rewrite Hm, <- app_assoc].
    apply Forall_app. split; [done | by repeat constructor].
  - right. do 2 (split; [done |]). eexists extra, _.
    split; [apply added_messages_app; simpl; by rewrite Hm, <- !app_assoc | by split].
  - left. split; [by eexists |]. split; [by rewrite Hs |].
    by erewrite added_messages_app.
Qed.

(** The statement above, at a sample input: a payload of two nodes and a
    self-loop waits to be rendered. *)
Lemma X6_graphEffect_outcome_witness :
  let st := showing (Some [ashwagandha; stress]) (Some [loop_edge]) initial in
  showGraph st = true ∧
  currentGraphData st = Some (Visualization (Some [ashwagandha; stress]) (Some [loop_edge])) ∧
  currentGraphData (graphEffect ticking_world true st) = currentGraphData st.
Proof.
  simpl. split; [done |]. split; [done |].
  apply (X6_graphEffect_outcome ticking_world
           (showing (Some [ashwagandha; stress]) (Some [loop_edge]) initial)
           (Visualization (Some [ashwagandha; stress]) (Some [loop_edge])));
    reflexivity.
Defined.

(** ** Sessions *)

Lemma evolves_refl st : evolves st st.
Proof.
  split; [done |]. split; [| by left]. exists []. split; [by rewrite app_nil_r | done].
Qed.

Lemma evolves_trans s1 s2 s3 : evolves s1 s2 → evolves s2 s3 → evolves s1 s3.
Proof.
  intros (Ht & (x & Hx & Px) & Hc) (Ht' & (y & Hy & Py) & Hc').
  split; [lia |]. split.
  - exists (x ++ y)%list. split; [by rewrite Hy, Hx, app_assoc | by apply Forall_app].
  - destruct Hc' as [Hc' | Hc']; [| by right].
    destruct Hc as [Hc | Hc]; [left; congruence | right; by rewrite Hc'].
Qed.

Lemma produced_bot text type :
  type ∈ ["welcome"; "results"; "no-results"; "error"; "warning"] → produced (bot text type).
Proof. intros H. by right. Qed.

Lemma error_known : "error" ∈ ["welcome"; "results"; "no-results"; "error"; "warning"].
Proof. repeat first [apply list_elem_of_here | apply list_elem_of_further]. Qed.

Lemma warning_known : "warning" ∈ ["welcome"; "results"; "no-results"; "error"; "warning"].
Proof. repeat first [apply list_elem_of_here | apply list_elem_of_further]. Qed.

(** A state reached by appending messages, consuming draws and keeping
    the stored payload. *)
Lemma evolves_by st st' extra :
  (tick st ≤ tick st')%nat → messages st' = (messages st ++ extra)%list →
  Forall produced extra → currentGraphData st' = currentGraphData st → evolves st st'.
Proof. intros. split; [done |]. split; [by exists extra | by left]. Qed.

Lemma evolves_by1 st st' m :
  (tick st ≤ tick st')%nat → messages st' = (messages st ++ [m])%list →
  produced m → currentGraphData st' = currentGraphData st → evolves st st'.
Proof. intros. apply (evolves_by _ _ [m]); try done. by constructor. Qed.

Lemma evolves_by2 st st' m1 m2 :
  (tick st ≤ tick st')%nat → messages st' = ((messages st ++ [m1]) ++ [m2])%list →
  produced m1 → produced m2 → currentGraphData st' = currentGraphData st → evolves st st'.
Proof.
  intros ? Hm ? ? ?. eapply (evolves_by _ _ [m1; m2]); try done.
  - by rewrite Hm, <- app_assoc.
  - constructor; [done | by constructor].
Qed.

Ltac appending :=
  first
    [ eapply evolves_by1; [simpl; lia | simpl; reflexivity | | reflexivity]
    | eapply evolves_by2; [simpl; lia | simpl; reflexivity | | | reflexivity] ].

Ltac unchanged :=
  apply (evolves_by _ _ []); [simpl; lia | simpl; by rewrite app_nil_r | done | done].

Lemma results_known c :
  (if strict_eq c (JStr "high") then "results" else "no-results")
    ∈ ["welcome"; "results"; "no-results"; "error"; "warning"].
Proof.
  destruct (strict_eq _ _); repeat first [apply list_elem_of_here | apply list_elem_of_further].
Qed.

Lemma send_evolves w reply st : evolves st (send w reply st).
Proof.
  unfold send.
  destruct (String.eqb (trim (input st)) "" || loading st); [apply evolves_refl |].
  destruct (send_try reply _) as [e | st'] eqn:E; simpl.
  - appending; [by left | apply produced_bot, error_known].
  - unfold send_try in E.
    destruct reply as [m | [|] status [m | data]]; simpl in E; try done.
    destruct (str_truthy (cd_error data)); [done |].
    destruct (cd_kg_data data ≫= kg_visualization) as [viz |]; simpl in E.
    + destruct (vis_nodes viz), (vis_edges viz); try done. injection E as <-.
      appending; [by left | right; split; [done | apply results_known]].
    + injection E as <-.
      appending; [by left | right; split; [done | apply results_known]].
Qed.

Lemma nonempty_pass (f : node → nat → gmap jsval string → node * gmap jsval string) i l s :
  l ≠ [] → (array_map_st f i l s).1 ≠ [].
Proof.
  intros Hne Hnil. apply (f_equal length) in Hnil.
  rewrite node_pass_length in Hnil. by destruct l.
Qed.

Lemma showQueryGraph_evolves w kgData st : evolves st (showQueryGraph w kgData st).
Proof.
  destruct kgData as [kg |];
    [| unfold showQueryGraph; simpl; appending; apply produced_bot, error_known].
  destruct (kg_visualization kg) as [[[nodes |] edges] |] eqn:Hviz.
  - destruct (decide (nodes = [])) as [-> | Hne].
    + unfold showQueryGraph. simpl. rewrite Hviz. simpl.
      appending; apply produced_bot, error_known.
    + destruct (showQueryGraph_stores w kg st nodes edges Hviz Hne)
        as (Hp & _ & _ & Ht & Hm).
      split; [lia |]. split.
      * eexists. split; [exact Hm |].
        destruct (has_edges edges && _); [| constructor].
        constructor; [apply produced_bot, warning_known | constructor].
      * right. eexists _, _. split; [by apply current_payload_Some |].
        by apply nonempty_pass.
  - unfold showQueryGraph. simpl. rewrite Hviz. simpl.
    appending; apply produced_bot, error_known.
  - unfold showQueryGraph. simpl. rewrite Hviz. simpl.
    appending; apply produced_bot, error_known.
Qed.

Lemma fetchFullKG_evolves w reply st : evolves st (fetchFullKG w reply st).
Proof.
  assert (∀ e, fetchFullKG_try w reply (setGraphLoading true st) = inl e →
               evolves st (fetchFullKG w reply st)) as Hfail.
  { intros e E. unfold fetchFullKG. rewrite E. simpl.
    appending; apply produced_bot, error_known. }
  destruct reply as [m | [|] status [m | data]]; try (by eapply Hfail).
  destruct (str_truthy (fk_error data)) eqn:Herr;
    [eapply Hfail; simpl; by rewrite Herr |].
  destruct (fk_nodes data) as [[| n nodes] |] eqn:Hnodes;
    try (eapply Hfail; simpl; by rewrite Herr, Hnodes).
  destruct (fetchFullKG_stores w status data st (n :: nodes) Herr Hnodes)
    as (Hp & _ & _ & _ & Ht & Hm); [done |].
  split; [lia |]. split.
  - exists []. split; [by rewrite app_nil_r | done].
  - right. eexists _, _. split; [by apply current_payload_Some |].
    by apply nonempty_pass.
Qed.

Lemma graphEffect_keep_evolves l st :
  tick (array_filter_st graphEffect_keep l st).2 = tick st ∧
  evolves st (array_filter_st graphEffect_keep l st).2.
Proof.
  apply (array_filter_st_snd graphEffect_keep (λ s s', tick s' = tick s ∧ evolves s s')).
  - intros s. split; [done | apply evolves_refl].
  - intros s1 s2 s3 [? ?] [? ?]. split; [congruence | by eapply evolves_trans].
  - intros e s. unfold graphEffect_keep. repeat case_match; simpl;
      (split; [done |]); try apply evolves_refl.
    + unchanged.
    + appending. apply produced_bot, warning_known.
Qed.

Lemma graphEffect_evolves w container st : evolves st (graphEffect w container st).
Proof.
  unfold graphEffect.
  destruct (currentGraphData st) as [data |] eqn:Hdata; [| apply evolves_refl].
  destruct (showGraph st && container); [| apply evolves_refl].
  destruct (vis_nodes data) as [nodes |]; simpl.
  2: { appending; apply produced_bot, error_known. }
  destruct (length nodes =? 0)%nat.
  { appending; apply produced_bot, error_known. }
  destruct (array_map_st _ 0 nodes ∅) as [pn m].
  match goal with |- context [array_filter_st ?f ?l ?s] =>
    pose proof (graphEffect_keep_evolves l s) as (Ht & Hev);
    destruct (array_filter_st f l s) as [kept st1]
  end.
  simpl in Ht, Hev. eapply evolves_trans; [exact Hev |].
  set (processedEdges := imap _ kept).
  destruct (vis_edges data) as [edges |]; simpl.
  2: { appending; apply produced_bot, error_known. }
  destruct (negb (length edges =? 0)%nat && (length processedEdges =? 0)%nat); simpl;
    destruct (renderer_error w _) as [e |]; simpl.
  - appending; apply produced_bot; [apply warning_known | apply error_known].
  - appending; apply produced_bot, warning_known.
  - appending; apply produced_bot, error_known.
  - unchanged.
Qed.

Lemma step_evolves w a st : evolves st (step w a st).
Proof.
  destruct a as [text | index | reply | index | reply | container |]; simpl.
  - unchanged.
  - destruct (quickQuestions !! index); [| apply evolves_refl].
    destruct (quick_questions_shown st); [| apply evolves_refl]. unchanged.
  - apply send_evolves.
  - destruct (messages st !! index) as [m |]; [| apply evolves_refl].
    destruct (view_graph_button m); [apply showQueryGraph_evolves | apply evolves_refl].
  - destruct (graphLoading st); [apply evolves_refl | apply fetchFullKG_evolves].
  - apply graphEffect_evolves.
  - destruct (showGraph st); [| apply evolves_refl]. unchanged.
Qed.

Lemma run_evolves w actions st : evolves st (run w actions st).
Proof.
  revert st. induction actions as [| a actions IH]; intros st; simpl.
  - apply evolves_refl.
  - eapply evolves_trans; [apply step_evolves | apply IH].
Qed.

Lemma renderable_evolves st st' : renderable st → evolves st st' → renderable st'.
Proof.
  unfold renderable. intros Hr (_ & _ & [-> | (pn & pe & -> & Hne)]); [done |].
  by exists pn, pe.
Qed.

Lemma added_messages_same st : added_messages st st = [].
Proof. unfold added_messages. by rewrite drop_all. Qed.

(** X7: in every state a session reaches from the freshly mounted
    component, the stored payload, if there is one, has both its arrays and
    at least one node: the only way payloads get stored is through
    [showQueryGraph] and [fetchFullKG], which store what they processed.
    So the checks of the rendering effect on the shape of the payload never
    fail there: when the rendering library raises nothing, the effect shows
    at most warnings and leaves the graph open or closed as it was. *)
Theorem X7_stored_payload_renderable w actions container :
  renderable (run w actions initial) ∧
  ((∀ payload, renderer_error w payload = None) →
   showGraph (graphEffect w container (run w actions initial))
     = showGraph (run w actions initial) ∧
   Forall (λ m, m_type m = "warning")
     (added_messages (run w actions initial)
        (graphEffect w container (run w actions initial)))).
Proof.
  assert (renderable (run w actions initial)) as Hr.
  { apply (renderable_evolves initial); [done | apply run_evolves]. }
  split; [exact Hr |]. intros Hrender.
  set (st := run w actions initial) in *.
  assert (graphEffect w container st = st ∨
          (container = true ∧ showGraph st = true ∧ is_Some (currentGraphData st)))
    as [Hsame | (-> & Hshow & [data Hdata])].
  { unfold graphEffect. destruct (currentGraphData st); [| by left].
    destruct (showGraph st), container; simpl; try (by left). right. by eauto. }
  - rewrite Hsame. split; [done |]. by rewrite added_messages_same.
  - unfold renderable in Hr. rewrite Hdata in Hr.
    destruct Hr as (nodes & edges & -> & Hne).
    destruct (graphEffect_renders w st nodes edges Hdata Hshow Hne (Hrender _))
      as (_ & Hshow' & _ & extra & Hw & Hm).
    split; [congruence |].
    rewrite (added_messages_app _ _ _ Hm). apply Forall_app. split; [done |].
    destruct (negb _ && _); by repeat constructor.
Qed.

(** X8: the chat only grows: whatever happens in a session, the messages
    there were are still there, in order, followed by what was added.  The
    popular questions, rendered only while the chat holds a single message,
    are therefore gone for good once a question has been sent. *)
Theorem X8_chat_only_grows w actions st :
  (∃ extra, messages (run w actions st) = (messages st ++ extra)%list) ∧
  (∀ reply, send_disabled st = false →
     quick_questions_shown (run w actions (send w reply st)) = false).
Proof.
  split.
  - destruct (run_evolves w actions st) as (_ & (extra & Hm & _) & _). by exists extra.
  - intros reply Hcan.
    destruct (run_evolves w actions (send w reply st)) as (_ & (extra & Hm & _) & _).
    unfold quick_questions_shown. rewrite Hm.
    unfold send, send_disabled in *. rewrite orb_comm in Hcan. rewrite Hcan.
    destruct (send_try reply _) as [e | st'] eqn:E; simpl.
    + rewrite !length_app. simpl. rewrite (proj2 (Nat.eqb_neq _ _)); [done | lia].
    + assert (∃ m, messages st' =
                ((messages st ++ [Message "user" (trim (input st)) "user" None]) ++ [m])%list)
        as [m ->].
      { unfold send_try in E.
        destruct reply as [m | [|] status [m | data]]; simpl in E; try done.
        destruct (str_truthy (cd_error data)); [done |].
        destruct (cd_kg_data data ≫= kg_visualization) as [viz |]; simpl in E.
        - destruct (vis_nodes viz), (vis_edges viz); try done. injection E as <-.
          by eexists.
        - injection E as <-. by eexists. }
      rewrite !length_app. simpl. rewrite (proj2 (Nat.eqb_neq _ _)); [done | lia].
Qed.

Lemma produced_style m :
  produced m →
  getMessageStyle m ∈
    [ "message-bubble user-message";
      "message-bubble bot-message welcome-message";
      "message-bubble bot-message results-message";
      "message-bubble bot-message no-results-message";
      "message-bubble bot-message error-message";
      "message-bubble bot-message warning-message" ].
Proof.
  unfold getMessageStyle.
  intros [[-> _] | [-> Ht]]; simpl; [apply list_elem_of_here |].
  repeat (apply elem_of_cons in Ht as [-> | Ht]; simpl;
          [repeat first [apply list_elem_of_here | apply list_elem_of_further] |]).
  by apply elem_of_nil in Ht.
Qed.

(** X9: every message a session puts in the chat is either a question of
    the user or a message of the bot of type [welcome], [results],
    [no-results], [error] or [warning]; [getMessageStyle] gives each of them
    a class of its own, never the bare default, and among the messages of
    the bot only those of type [no-results] get the default icon. *)
Theorem X9_messages_styled w actions m :
  m ∈ messages (run w actions initial) →
  produced m ∧
  getMessageStyle m ∈
    [ "message-bubble user-message";
      "message-bubble bot-message welcome-message";
      "message-bubble bot-message results-message";
      "message-bubble bot-message no-results-message";
      "message-bubble bot-message error-message";
      "message-bubble bot-message warning-message" ] ∧
  (m_from m = "bot" → getMessageIcon m = Icon "Leaf" None → m_type m = "no-results").
Proof.
  intros Hin.
  assert (produced m) as Hp.
  { destruct (run_evolves w actions initial) as (_ & (extra & Hm & Hall) & _).
    rewrite Hm in Hin. apply elem_of_app in Hin as [Hin | Hin].
    - apply list_elem_of_singleton in Hin as ->. right. split; [done |].
      apply list_elem_of_here.
    - by apply (proj1 (Forall_forall _ _) Hall). }
  split; [exact Hp |]. split; [by apply produced_style |].
  intros Hbot. destruct Hp as [[Hu _] | [_ Ht]]; [congruence |].
  unfold getMessageIcon.
  repeat (apply elem_of_cons in Ht as [-> | Ht]; simpl; [done |]).
  by apply elem_of_nil in Ht.
Qed.

(** The statement above, at a sample input: the message a failed request
    leaves in the chat. *)
Lemma X9_messages_styled_witness :
  let actions := [TypeInput "What helps with stress?"; PressSend (FetchRejected "Failed to fetch")] in
  connection_issue still_world "Failed to fetch" ∈ messages (run still_world actions initial) ∧
  getMessageStyle (connection_issue still_world "Failed to fetch")
    = "message-bubble bot-message error-message".
Proof.
  simpl.
  assert (connection_issue still_world "Failed to fetch"
            ∈ messages (run still_world
                          [TypeInput "What helps with stress?";
                           PressSend (FetchRejected "Failed to fetch")] initial)) as Hin.
  { vm_compute. do 2 apply list_elem_of_further. apply list_elem_of_here. }
  split; [exact Hin |].
  destruct (X9_messages_styled still_world _ _ Hin) as (_ & _ & _). reflexivity.
Defined.

(** ** Identifiers across invocations and within a payload *)

Lemma ticking_world_inj : Inj (=) (=) (draws ticking_world).
Proof. intros i j H. simpl in H. injection H as H. lia. Qed.

(** X10: each invocation consumes draws of its own, further along the
    stream than every draw consumed before.  So if clock and random
    generator never give the same pair of readings twice, the node ids
    generated by a successful [showQueryGraph] are all different from the
    node ids generated by a successful [showQueryGraph] later in the
    session, whatever happened in between. *)
Theorem X10_fresh_across_invocations w st kg1 nodes1 edges1 actions kg2 nodes2 edges2 :
  Inj (=) (=) (draws w) →
  kg_visualization kg1 = Some (Visualization (Some nodes1) edges1) → nodes1 ≠ [] →
  kg_visualization kg2 = Some (Visualization (Some nodes2) edges2) → nodes2 ≠ [] →
  ∃ pn1 pe1 pn2 pe2,
    current_payload (showQueryGraph w (Some kg1) st) = Some (pn1, pe1) ∧
    current_payload
      (showQueryGraph w (Some kg2) (run w actions (showQueryGraph w (Some kg1) st)))
      = Some (pn2, pe2) ∧
    ∀ id, id ∈ ids pn1 → id ∉ ids pn2.
Proof.
  intros Hinj Hkg1 Hne1 Hkg2 Hne2.
  destruct (showQueryGraph_stores w kg1 st nodes1 edges1 Hkg1 Hne1)
    as (Hp1 & _ & _ & Ht1 & _).
  set (st1 := showQueryGraph w (Some kg1) st) in *.
  destruct (run_evolves w actions st1) as (Ht2 & _).
  set (st2 := run w actions st1) in *.
  destruct (showQueryGraph_stores w kg2 st2 nodes2 edges2 Hkg2 Hne2) as (Hp2 & _).
  eexists _, _, _, _. split; [exact Hp1 |]. split; [exact Hp2 |].
  intros id.
  rewrite (payload_ids w (tick st) _ (showQueryGraph_node_assigning w (tick st))).
  rewrite (payload_ids w (tick st2) _ (showQueryGraph_node_assigning w (tick st2))).
  intros (i & -> & Hi%elem_of_seq)%list_elem_of_fmap
         (j & Heq & Hj%elem_of_seq)%list_elem_of_fmap.
  assert (node_uid w (tick st) i = node_uid w (tick st2) j) as Huid by congruence.
  unfold node_uid in Huid. apply fresh_id_inj in Huid as [<- Hd%Hinj].
  assert (0 < length nodes1) by (destruct nodes1; [done | simpl; lia]).
  lia.
Qed.

(** The statement above, at a sample input: the same two nodes are shown
    twice, the rendering effect running in between, while the clock
    advances. *)
Lemma X10_fresh_across_invocations_witness :
  let kg := kg_with (Some [ashwagandha; stress]) (Some [treats_stress]) in
  Inj (=) (=) (draws ticking_world) ∧
  kg_visualization kg = Some (Visualization (Some [ashwagandha; stress]) (Some [treats_stress])) ∧
  [ashwagandha; stress] ≠ [] ∧
  ∃ pn1 pe1 pn2 pe2,
    current_payload (showQueryGraph ticking_world (Some kg) initial) = Some (pn1, pe1) ∧
    current_payload
      (showQueryGraph ticking_world (Some kg)
         (run ticking_world [RunEffect true]
            (showQueryGraph ticking_world (Some kg) initial)))
      = Some (pn2, pe2) ∧
    ∀ id, id ∈ ids pn1 → id ∉ ids pn2.
Proof.
  simpl. split; [apply ticking_world_inj |]. split; [done |]. split; [done |].
  apply (X10_fresh_across_invocations ticking_world initial
           (kg_with (Some [ashwagandha; stress]) (Some [treats_stress]))
           [ashwagandha; stress] (Some [treats_stress]) [RunEffect true]
           (kg_with (Some [ashwagandha; stress]) (Some [treats_stress]))
           [ashwagandha; stress] (Some [treats_stress]));
    [apply ticking_world_inj | done ..].
Defined.

Lemma edge_uid_inj w t i j :
  fresh_id "edge" i (draws w (t + i)) = fresh_id "edge" j (draws w (t + j)) → i = j.
Proof. by intros [? _]%fresh_id_inj. Qed.

Lemma edge_uid_not_node i d j d' : fresh_id "edge" i d ≠ fresh_id "node" j d'.
Proof. unfold fresh_id. simpl. discriminate. Qed.

Lemma remap_edge_ids w t m kept :
  edge_id <$> imap (remap_edge w t m) kept =
    (λ j, JStr (fresh_id "edge" j (draws w (t + j)))) <$> seq 0 (length kept).
Proof.
  apply list_eq. intros i.
  rewrite !list_lookup_fmap, list_lookup_imap.
  destruct (kept !! i) as [e |] eqn:E; simpl.
  - rewrite lookup_seq_lt by by eapply lookup_lt_Some. done.
  - rewrite lookup_seq_ge by by apply lookup_ge_None. done.
Qed.

Lemma payload_edge_ids_fresh w t t' f nodes kept :
  id_assigning (node_uid w t) f →
  edge_ids_fresh (array_map_st f 0 nodes ∅).1 (imap (remap_edge w t' (array_map_st f 0 nodes ∅).2) kept).
Proof.
  intros Hf. split.
  - rewrite remap_edge_ids.
    apply NoDup_fmap_2_strong; [| apply NoDup_seq].
    intros a b _ _ H. apply (edge_uid_inj w t'). congruence.
  - intros e' (i & e & -> & _)%elem_of_lookup_imap_1. simpl.
    rewrite (payload_ids w t f Hf).
    intros (j & Heq & _)%list_elem_of_fmap.
    apply (edge_uid_not_node i (draws w (t' + i)) j (draws w (t + j))).
    unfold node_uid in Heq. congruence.
Qed.

(** X11: in [showQueryGraph], in [fetchFullKG] and in the rendering
    effect, the ids given to the processed edges are pairwise distinct,
    whatever ids the edges came with, and none of them is the id of a
    processed node: an edge id is built from the position of the edge among
    the kept ones, and starts with [edge] where a node id starts with
    [node]. *)
Theorem X11_edge_ids_fresh w st nodes edges :
  nodes ≠ [] →
  (∀ kg, kg_visualization kg = Some (Visualization (Some nodes) edges) →
     ∃ pn pe,
       current_payload (showQueryGraph w (Some kg) st) = Some (pn, pe) ∧
       edge_ids_fresh pn pe) ∧
  (∀ status data,
     str_truthy (fk_error data) = false →
     fk_nodes data = Some nodes → fk_edges data = edges →
     ∃ pn pe,
       current_payload (fetchFullKG w (HttpReply true status (inr data)) st) = Some (pn, pe) ∧
       edge_ids_fresh pn pe) ∧
  (∀ es,
     edges = Some es →
     currentGraphData st = Some (Visualization (Some nodes) edges) →
     showGraph st = true →
     (∀ payload, renderer_error w payload = None) →
     ∃ pn pe,
       rendered_payload (graphEffect w true st) = Some (pn, pe) ∧
       edge_ids_fresh pn pe).
Proof.
  intros Hne. split; [| split].
  - intros kg Hkg.
    destruct (showQueryGraph_stores w kg st nodes edges Hkg Hne) as (Hp & _).
    eexists _, _. split; [exact Hp |].
    apply (payload_edge_ids_fresh w (tick st)), showQueryGraph_node_assigning.
  - intros status data Herr Hnodes <-.
    destruct (fetchFullKG_stores w status data st nodes Herr Hnodes Hne) as (Hp & _).
    eexists _, _. split; [exact Hp |].
    apply (payload_edge_ids_fresh w (tick st)), fetchFullKG_node_assigning.
  - intros es -> Hdata Hshow Hrender.
    destruct (graphEffect_renders w st nodes es Hdata Hshow Hne (Hrender _)) as (Hp & _).
    eexists _, _. split; [exact Hp |].
    apply (payload_edge_ids_fresh w (tick st)), graphEffect_node_assigning.
Qed.

(** The statement above, at a sample input: two edges that came with the
    same id. *)
Lemma X11_edge_ids_fresh_witness :
  let twin := Edge (JStr "e1") (JStr "stress") (JStr "ashwagandha") (JStr "treatedBy") in
  [ashwagandha; stress] ≠ [] ∧
  ∃ pn pe,
    current_payload
      (showQueryGraph still_world
         (Some (kg_with (Some [ashwagandha; stress]) (Some [treats_stress; twin]))) initial)
    = Some (pn, pe) ∧
    NoDup (edge_id <$> pe).
Proof.
  simpl. split; [done |].
  destruct (X11_edge_ids_fresh still_world initial [ashwagandha; stress]
              (Some [treats_stress;
                     Edge (JStr "e1") (JStr "stress") (JStr "ashwagandha") (JStr "treatedBy")]))
    as (H & _); [done |].
  destruct (H (kg_with (Some [ashwagandha; stress])
                 (Some [treats_stress;
                        Edge (JStr "e1") (JStr "stress") (JStr "ashwagandha") (JStr "treatedBy")]))
              eq_refl) as (pn & pe & Hp & Hfresh & _).
  by exists pn, pe.
Defined.

(** X12: [showQueryGraph] and [fetchFullKG] change nothing of a node but
    its id: the processed nodes are the received nodes, one for one and in
    order, each with the label, group and size it came with. *)
Theorem X12_node_data_kept w st nodes edges :
  nodes ≠ [] →
  (∀ kg, kg_visualization kg = Some (Visualization (Some nodes) edges) →
     ∃ pn pe,
       current_payload (showQueryGraph w (Some kg) st) = Some (pn, pe) ∧
       Forall2 same_node_data nodes pn) ∧
  (∀ status data,
     str_truthy (fk_error data) = false →
     fk_nodes data = Some nodes → fk_edges data = edges →
     ∃ pn pe,
       current_payload (fetchFullKG w (HttpReply true status (inr data)) st) = Some (pn, pe) ∧
       Forall2 same_node_data nodes pn).
Proof.
  intros Hne. split.
  - intros kg Hkg.
    destruct (showQueryGraph_stores w kg st nodes edges Hkg Hne) as (Hp & _).
    eexists _, _. split; [exact Hp |]. by apply node_pass_Forall2.
  - intros status data Herr Hnodes <-.
    destruct (fetchFullKG_stores w status data st nodes Herr Hnodes Hne) as (Hp & _).
    eexists _, _. split; [exact Hp |]. by apply node_pass_Forall2.
Qed.

(** The statement above, at a sample input: a herb and a condition. *)
Lemma X12_node_data_kept_witness :
  [ashwagandha; stress] ≠ [] ∧
  ∃ pn pe,
    current_payload
      (showQueryGraph still_world
         (Some (kg_with (Some [ashwagandha; stress]) (Some [treats_stress]))) initial)
    = Some (pn, pe) ∧
    node_label <$> pn = [JStr "Ashwagandha"; JStr "Stress"].
Proof.
  split; [done |].
  destruct (X12_node_data_kept still_world initial [ashwagandha; stress] (Some [treats_stress]))
    as (H & _); [done |].
  destruct (H (kg_with (Some [ashwagandha; stress]) (Some [treats_stress])) eq_refl)
    as (pn & pe & Hp & Hdata).
  exists pn, pe. split; [exact Hp |].
  apply Forall2_cons_inv_l in Hdata as (n1 & pn1 & (H1 & _) & Hdata & ->).
  apply Forall2_cons_inv_l in Hdata as (n2 & pn2 & (H2 & _) & Hdata & ->).
  apply Forall2_nil_inv_l in Hdata as ->. simpl. by rewrite H1, H2.
Defined.

(** ** From the answer to the renderer *)

Lemma filter_all_valid edges :
  (∀ e, e ∈ edges → edge_valid e = true) → List.filter edge_valid edges = edges.
Proof.
  induction edges as [| e l IH]; intros H; simpl; [done |].
  rewrite (H e (list_elem_of_here _ _)). f_equal. apply IH.
  intros e' He'. apply H. by apply list_elem_of_further.
Qed.

Lemma processed_id_truthy w t f nodes k :
  id_assigning (node_uid w t) f →
  k ∈ ids (array_map_st f 0 nodes ∅).1 → truthy k = true.
Proof.
  intros Hf. rewrite (payload_ids w t f Hf).
  intros (j & -> & _)%list_elem_of_fmap. apply fresh_id_truthy.
Qed.

(** X13: the payload of an answer goes through two passes before it is
    rendered: [showQueryGraph] stores it processed, and the rendering
    effect processes what is stored once more.  When the two endpoints of
    every kept edge are ids of nodes of the answer, what reaches the
    renderer is sound: one node per received node, with its label, its
    group and the size of its group, under pairwise distinct ids; one edge
    per kept edge, none of them lost in the second pass; every edge joins
    two different rendered nodes.  (The rendering library is taken to raise
    nothing.) *)
Theorem X13_answer_rendered w st kg nodes edges :
  kg_visualization kg = Some (Visualization (Some nodes) (Some edges)) →
  nodes ≠ [] →
  (∀ e, e ∈ edges → edge_valid e = true →
        edge_from e ∈ ids nodes ∧ edge_to e ∈ ids nodes) →
  (∀ payload, renderer_error w payload = None) →
  ∃ pn pe,
    rendered_payload (graphEffect w true (showQueryGraph w (Some kg) st)) = Some (pn, pe) ∧
    Forall2 rendered_from nodes pn ∧
    NoDup (ids pn) ∧
    length pe = length (List.filter edge_valid edges) ∧
    referential_integrity pn pe ∧
    no_self_loop pe.
Proof.
  intros Hkg Hne Hclosed Hrender.
  destruct (showQueryGraph_stores w kg st nodes (Some edges) Hkg Hne)
    as (Hp & Hshow & _ & _ & _).
  set (st1 := showQueryGraph w (Some kg) st) in *.
  set (f1 := showQueryGraph_node w (tick st)) in *.
  pose proof (showQueryGraph_node_assigning w (tick st)) as Hf1. fold f1 in Hf1.
  set (pn1 := (array_map_st f1 0 nodes ∅).1) in *.
  set (pe1 := imap _ _) in Hp. simpl in pe1.
  assert (referential_integrity pn1 pe1) as Hri1
    by (by apply (payload_integrity w (tick st))).
  assert (no_self_loop pe1) as Hloop1.
  { apply (payload_no_self_loop w (tick st)); [done |].
    intros e [He Hv]%elem_of_filter_valid. destruct (Hclosed e He Hv). by split. }
  assert (∀ e, e ∈ pe1 → edge_valid e = true) as Hvalid1.
  { intros e He. destruct (Hri1 e He) as [Hfrom Hto]. unfold edge_valid.
    rewrite (processed_id_truthy w (tick st) f1 nodes _ Hf1 Hfrom).
    rewrite (processed_id_truthy w (tick st) f1 nodes _ Hf1 Hto). simpl.
    apply strict_ne_true. by apply Hloop1. }
  apply current_payload_Some in Hp.
  assert (pn1 ≠ []) as Hne1 by (by apply nonempty_pass).
  destruct (graphEffect_renders w st1 pn1 pe1 Hp Hshow Hne1 (Hrender _)) as (Hp2 & _).
  rewrite (filter_all_valid pe1 Hvalid1) in Hp2.
  pose proof (graphEffect_node_assigning w (tick st1)) as Hf2.
  eexists _, _. split; [exact Hp2 |]. split; [| split; [| split; [| split]]].
  - eapply Forall2_trans; [| apply (node_pass_Forall2 same_node_data f1); done |].
    2: { apply (node_pass_Forall2
                  (λ n n', node_label n' = node_label n ∧ node_group n' = node_group n ∧
                           node_size n' = JNum (render_size (node_group n)))). done. }
    intros n n1 n2 (Hl & Hg & _) (Hl' & Hg' & Hs'). unfold rendered_from.
    rewrite Hl', Hg', Hs', Hl, Hg. done.
  - by apply (payload_NoDup w (tick st1)).
  - unfold pe1. by rewrite !length_imap.
  - pose proof (payload_integrity w (tick st1) (tick st1 + length pn1) _ Hf2 pn1 pe1) as H.
    rewrite (filter_all_valid pe1 Hvalid1) in H. apply H.
    intros e He _. by apply Hri1.
  - pose proof (payload_no_self_loop w (tick st1) (tick st1 + length pn1) _ Hf2 pn1 pe1) as H.
    rewrite (filter_all_valid pe1 Hvalid1) in H. apply H.
    intros e He. destruct (Hri1 e He). by split.
Qed.

(** The statement above, at a sample input: a herb, a condition, the edge
    between them and a self-loop. *)
Lemma X13_answer_rendered_witness :
  let kg := kg_with (Some [ashwagandha; stress]) (Some [treats_stress; loop_edge]) in
  kg_visualization kg
    = Some (Visualization (Some [ashwagandha; stress]) (Some [treats_stress; loop_edge])) ∧
  [ashwagandha; stress] ≠ [] ∧
  (∀ payload, renderer_error ticking_world payload = None) ∧
  ∃ pn pe,
    rendered_payload
      (graphEffect ticking_world true (showQueryGraph ticking_world (Some kg) initial))
    = Some (pn, pe) ∧
    length pe = 1 ∧ referential_integrity pn pe.
Proof.
  simpl. split; [done |]. split; [done |]. split; [done |].
  destruct (X13_answer_rendered ticking_world initial
              (kg_with (Some [ashwagandha; stress]) (Some [treats_stress; loop_edge]))
              [ashwagandha; stress] [treats_stress; loop_edge])
    as (pn & pe & Hp & _ & _ & Hlen & Hri & _); try done.
  - intros e He Hv. apply elem_of_cons in He as [-> | He].
    + split; [apply list_elem_of_here | apply list_elem_of_further, list_elem_of_here].
    + apply list_elem_of_singleton in He as ->. discriminate Hv.
  - by exists pn, pe.
Defined.

(** ** Markup *)

Lemma contains_char_app c s1 s2 :
  contains_char c (s1 +:+ s2) = contains_char c s1 || contains_char c s2.
Proof. induction s1 as [| a s1 IH]; simpl; [done |]. by rewrite IH, orb_assoc. Qed.

Lemma remove_char_app c s1 s2 :
  remove_char c (s1 +:+ s2) = remove_char c s1 +:+ remove_char c s2.
Proof.
  induction s1 as [| a s1 IH]; simpl; [done |].
  destruct (Ascii.eqb a c); simpl; by rewrite IH.
Qed.

Lemma string_length_app s1 s2 :
  String.length (s1 +:+ s2) = (String.length s1 + String.length s2)%nat.
Proof. induction s1 as [| a s1 IH]; simpl; [done |]. by rewrite IH. Qed.

Lemma string_app_assoc s1 s2 s3 : (s1 +:+ s2) +:+ s3 = s1 +:+ s2 +:+ s3.
Proof.
  induction s1 as [| a s1 IH]; [done |].
  change (String a ((s1 +:+ s2) +:+ s3) = String a (s1 +:+ s2 +:+ s3)). by f_equal.
Qed.

Lemma strip_prefix_app p s : strip_prefix p (p +:+ s) = Some s.
Proof. induction p as [| a p IH]; simpl; [done |]. by rewrite Ascii.eqb_refl. Qed.

(** Whether a line terminator starts at the head of a text does not depend
    on what follows an asterisk. *)
Lemma line_terminator_before_asterisk a x y :
  line_terminator_at (String a x +:+ String "*" y) = line_terminator_at (String a x).
Proof.
  destruct a as [[] [] [] [] [] [] [] []]; try reflexivity.
  destruct x as [| b x]; [reflexivity |].
  destruct b as [[] [] [] [] [] [] [] []]; try reflexivity.
  destruct x as [| c x]; reflexivity.
Qed.

(** On one line and without asterisk, the lazy group runs up to the closing
    marker. *)
Lemma lazy_until_found p x rest :
  contains_char "*" x = false → single_line x = true →
  lazy_until (String "*" p) (x +:+ String "*" p +:+ rest) = Some (x, rest).
Proof.
  induction x as [| a x IH]; intros Hx Hl.
  - simpl. by rewrite strip_prefix_app.
  - simpl in Hx. apply orb_false_iff in Hx as [Ha Hx].
    cbn [single_line] in Hl. apply andb_true_iff in Hl as [Hlt Hl].
    change (String a x +:+ String "*" p +:+ rest)
      with (String a (x +:+ String "*" p +:+ rest)).
    cbn [lazy_until strip_prefix]. rewrite Ascii.eqb_sym, Ha.
    change (String a (x +:+ String "*" p +:+ rest))
      with (String a x +:+ String "*" (p +:+ rest)).
    rewrite line_terminator_before_asterisk.
    apply negb_true_iff in Hlt. rewrite Hlt.
    change (x +:+ String "*" (p +:+ rest)) with (x +:+ String "*" p +:+ rest).
    by rewrite IH.
Qed.

(** Text without the opening character is copied. *)
Lemma replace_bold_skip n c p closing a s :
  contains_char c a = false →
  replace_bold_fuel (String.length a + n) (String c p) closing (a +:+ s)
    = a +:+ replace_bold_fuel n (String c p) closing s.
Proof.
  induction a as [| b a IH]; intros Ha; [done |].
  simpl in Ha. apply orb_false_iff in Ha as [Hb Ha].
  change (String b a +:+ s) with (String b (a +:+ s)).
  cbn [String.length Nat.add replace_bold_fuel strip_prefix].
  rewrite Ascii.eqb_sym, Hb. simpl. by rewrite IH.
Qed.

Lemma replace_bold_app c p closing a s :
  contains_char c a = false →
  replace_bold (String c p) closing (a +:+ s) = a +:+ replace_bold (String c p) closing s.
Proof.
  intros Ha. unfold replace_bold. rewrite string_length_app. by apply replace_bold_skip.
Qed.

Lemma replace_bold_pair p x rest :
  contains_char "*" x = false → single_line x = true →
  replace_bold (String "*" p) (String "*" p) (String "*" p +:+ x +:+ String "*" p +:+ rest)
    = "<b>" +:+ x +:+ "</b>" +:+ replace_bold (String "*" p) (String "*" p) rest.
Proof.
  intros Hx Hl. unfold replace_bold.
  change (String "*" p +:+ x +:+ String "*" p +:+ rest)
    with (String "*" (p +:+ x +:+ String "*" p +:+ rest)).
  cbn [String.length replace_bold_fuel].
  change (String "*" (p +:+ x +:+ String "*" p +:+ rest))
    with (String "*" p +:+ x +:+ String "*" p +:+ rest).
  rewrite strip_prefix_app. simpl. rewrite (lazy_until_found p x rest Hx Hl).
  do 3 f_equal. apply replace_bold_fuel_enough; [| done].
  rewrite !string_length_app. simpl. lia.
Qed.

(** X14: text without asterisks comes out of [processResponseText] as it
    went in; in particular angle brackets and ampersands are not escaped,
    although the result is put in the page as HTML. *)
Theorem X14_plain_text_unchanged text :
  contains_char "*" text = false → processResponseText text = text.
Proof.
  intros Hs. unfold processResponseText, replace_bold.
  rewrite (replace_bold_absent _ "*" "*" "**" text Hs).
  rewrite (replace_bold_absent _ "*" "" "*" text Hs).
  by apply remove_char_id.
Qed.

(** The statement above, at a sample input: an answer with markup in it. *)
Lemma X14_plain_text_unchanged_witness :
  contains_char "*" "Take <b>neem</b> & rest <img src=x>" = false ∧
  processResponseText "Take <b>neem</b> & rest <img src=x>"
    = "Take <b>neem</b> & rest <img src=x>".
Proof.
  split; [reflexivity |].
  by apply (X14_plain_text_unchanged "Take <b>neem</b> & rest <img src=x>").
Defined.

(** X15: a pair of double asterisks becomes a pair of bold tags.  When
    the text before the first [**] holds no asterisk, and the text between
    that [**] and the next one holds no asterisk and no line break, the
    result is the text before, the text between in [<b>] and [</b>], and
    the result for the rest of the text. *)
Theorem X15_bold_pair before x rest :
  contains_char "*" before = false →
  contains_char "*" x = false → single_line x = true →
  processResponseText (before +:+ "**" +:+ x +:+ "**" +:+ rest)
    = before +:+ "<b>" +:+ x +:+ "</b>" +:+ processResponseText rest.
Proof.
  intros Hb Hx Hl. unfold processResponseText.
  rewrite (replace_bold_app "*" "*" "**" before _ Hb).
  rewrite (replace_bold_pair "*" x rest Hx Hl).
  set (r1 := replace_bold "**" "**" rest).
  assert (contains_char "*" (before +:+ "<b>" +:+ x +:+ "</b>") = false) as Hpre.
  { rewrite !contains_char_app, Hb, Hx. reflexivity. }
  replace (before +:+ "<b>" +:+ x +:+ "</b>" +:+ r1)
    with ((before +:+ "<b>" +:+ x +:+ "</b>") +:+ r1)
    by (by rewrite !string_app_assoc).
  rewrite (replace_bold_app "*" "" "*" _ r1 Hpre).
  rewrite remove_char_app, (remove_char_id _ _ Hpre).
  by rewrite !string_app_assoc.
Qed.

(** The statement above, at a sample input. *)
Lemma X15_bold_pair_witness :
  contains_char "*" "Use " = false ∧ contains_char "*" "ashwagandha" = false ∧
  single_line "ashwagandha" = true ∧
  processResponseText "Use **ashwagandha** daily, *not* more"
    = "Use <b>ashwagandha</b>" +:+ processResponseText " daily, *not* more".
Proof.
  split; [reflexivity |]. split; [reflexivity |]. split; [reflexivity |].
  by apply (X15_bold_pair "Use " "ashwagandha" " daily, *not* more").
Defined.

(** ** The sources section *)

Lemma nonempty_take {A : Type} (l : list A) : nonempty (Some (take 5 l)) = nonempty (Some l).
Proof. by destruct l. Qed.

(** X16: the sources section lists at most five entities and, for each
    relationship, at most five items: what comes after the fifth entity, or
    after the fifth item of a relationship, has no influence on the text
    [formatResults] returns. *)
Theorem X16_five_listed data :
  (∀ es, formatResults (with_entities data (Some es))
         = formatResults (with_entities data (Some (take 5 es)))) ∧
  (∀ before key items after,
     formatResults
       (with_relationships data (Some (before ++ (key, Some items) :: after)%list))
     = formatResults
         (with_relationships data (Some (before ++ (key, Some (take 5 items)) :: after)%list))).
Proof.
  split.
  - intros es. unfold formatResults, with_entities, kg_sources. simpl.
    destruct (cd_kg_data data) as [kg |]; simpl; [| done].
    change (negb (length (take 5 es) =? 0)%nat) with (nonempty (Some (take 5 es))).
    change (negb (length es =? 0)%nat) with (nonempty (Some es)).
    by rewrite nonempty_take, take_take.
  - intros before key items after. unfold formatResults, with_relationships, kg_sources. simpl.
    destruct (cd_kg_data data) as [kg |]; simpl; [| done].
    rewrite !length_app. simpl. rewrite !foldr_app. simpl.
    change (negb (length (take 5 items) =? 0)%nat) with (nonempty (Some (take 5 items))).
    change (negb (length items =? 0)%nat) with (nonempty (Some items)).
    by rewrite nonempty_take, take_take.
Qed.

(** X17: a relationship whose value is not an array, or is an empty array,
    contributes no line.  So when the structured data has no entity and
    only such relationships, the sources section is still added, and
    consists of its header and the heading [Relationships:] with nothing
    under it. *)
Theorem X17_empty_relationships data kg rels :
  str_truthy (cd_error data) = false →
  cd_kg_data data = Some kg →
  nonempty (kg_entities kg) = false →
  kg_relationships kg = Some rels → rels ≠ [] →
  Forall (λ entry, listed entry = false) rels →
  formatResults data =
    processResponseText (str_or (cd_response data) "No response available.")
    +:+ sources_header +:+ nl +:+ "Relationships:".
Proof.
  intros Herr Hkg Hents Hrels Hne Hall.
  unfold formatResults, kg_sources. rewrite Herr, Hkg, Hents, Hrels. simpl.
  rewrite (length_eqb_0_cons _ Hne). simpl.
  assert (foldr (λ r acc, format_relationship r +:+ acc) "" rels = "") as ->; [| done].
  clear Hrels Hne. induction Hall as [| [key items] rels Hx _ IH]; [done |].
  simpl. unfold listed in Hx. simpl in Hx. by rewrite Hx, IH.
Qed.

(** The statement above, at a sample input: a relationship with an empty
    list and one whose value is not a list. *)
Lemma X17_empty_relationships_witness :
  let kg := KgData (Some []) (Some [("treats", Some []); ("hasSymptom", None)]) None in
  let data := ChatData None None (Some "Rest well.") (JStr "low") (Some kg) in
  str_truthy (cd_error data) = false ∧ nonempty (kg_entities kg) = false ∧
  [("treats", Some ([] : list rel_item)); ("hasSymptom", None)] ≠ [] ∧
  Forall (λ entry, listed entry = false) [("treats", Some []); ("hasSymptom", None)] ∧
  formatResults data = "Rest well." +:+ sources_header +:+ nl +:+ "Relationships:".
Proof.
  simpl. split; [done |]. split; [done |]. split; [done |].
  split; [by repeat constructor |].
  by apply (X17_empty_relationships
              (ChatData None None (Some "Rest well.") (JStr "low")
                 (Some (KgData (Some []) (Some [("treats", Some []); ("hasSymptom", None)]) None)))
              (KgData (Some []) (Some [("treats", Some []); ("hasSymptom", None)]) None)
              [("treats", Some []); ("hasSymptom", None)]);
    [done | done | done | done | done | by repeat constructor].
Defined.

(** ** Times *)

(** X18: [formatTime] shows [Just now] for a message less than a minute
    old, and also for a message whose time lies in the future; it shows a
    whole number of minutes, between 1 and 59, for a message at least a
    minute and less than an hour old; and it shows the host's time of day
    of the message otherwise. *)
Theorem X18_formatTime_ranges toLocaleTimeString now timestamp :
  ((now - timestamp < 60000)%Z →
     formatTime toLocaleTimeString now timestamp = "Just now") ∧
  ((60000 ≤ now - timestamp < 3600000)%Z →
     ∃ minutes,
       (1 ≤ minutes ≤ 59)%Z ∧
       (60000 * minutes ≤ now - timestamp < 60000 * (minutes + 1))%Z ∧
       formatTime toLocaleTimeString now timestamp
         = js_to_string (JNum minutes) +:+ "m ago") ∧
  ((3600000 ≤ now - timestamp)%Z →
     formatTime toLocaleTimeString now timestamp = toLocaleTimeString timestamp).
Proof.
  unfold formatTime. split; [| split].
  - intros H. by rewrite (proj2 (Z.ltb_lt _ _) H).
  - intros [H1 H2].
    rewrite (proj2 (Z.ltb_ge _ _) H1), (proj2 (Z.ltb_lt _ _) H2).
    exists ((now - timestamp) / 60000)%Z. split; [| split; [| done]].
    + split; [apply Z.div_le_lower_bound; lia |].
      assert ((now - timestamp) / 60000 < 60)%Z by (apply Z.div_lt_upper_bound; lia). lia.
    + pose proof (Z.mul_div_le (now - timestamp) 60000 ltac:(lia)).
      pose proof (Z.mul_succ_div_gt (now - timestamp) 60000 ltac:(lia)). lia.
  - intros H.
    assert (60000 ≤ now - timestamp)%Z as H' by lia.
    by rewrite (proj2 (Z.ltb_ge _ _) H'), (proj2 (Z.ltb_ge _ _) H).
Qed.

(** ** The earlier revision *)

Lemma Earlier_selected_query st :
  graphType st = Some "query" →
  Earlier.selected st = (last (messages st) ≫= m_kg_data) ≫= kg_visualization.
Proof. intros H. unfold Earlier.selected. by rewrite H. Qed.

(** X19: in the earlier revision the [View Knowledge Graph] button of a
    message takes nothing from that message: whichever button is clicked,
    the effect that runs afterwards reads the visualization of the last
    message of the chat.  When the last message carries none (a question,
    an error notice, an answer without graph) the effect does nothing, and
    when it carries nodes and edges the renderer gets these. *)
Theorem X19_view_shows_last_message w st m :
  last (messages st) = Some m →
  (m_kg_data m ≫= kg_visualization = None →
   ∀ container,
     Earlier.graphEffect w container (EarlierUI.viewGraph st)
     = inr (EarlierUI.viewGraph st)) ∧
  (∀ nodes edges,
     m_kg_data m ≫= kg_visualization = Some (Visualization (Some nodes) (Some edges)) →
     nodes ≠ [] → edges ≠ [] →
     (∀ payload, renderer_error w payload = None) →
     ∃ st',
       Earlier.graphEffect w true (EarlierUI.viewGraph st) = inr st' ∧
       rendered_payload st' = Some (Earlier.graphEffect_node <$> nodes, edges)).
Proof.
  intros Hlast.
  assert (Earlier.selected (EarlierUI.viewGraph st) = m_kg_data m ≫= kg_visualization) as Hsel.
  { rewrite Earlier_selected_query by done. simpl. by rewrite Hlast. }
  split.
  - intros Hnone container. unfold Earlier.graphEffect. rewrite Hsel, Hnone.
    by destruct container.
  - intros nodes edges Hviz Hn He Hrender.
    unfold Earlier.graphEffect. rewrite Hsel, Hviz. simpl.
    rewrite (length_eqb_0_cons _ Hn), (length_eqb_0_cons _ He).
    specialize (Hrender (GraphData (Earlier.graphEffect_node <$> nodes) edges)).
    unfold renderer_error in Hrender.
    destruct (dataset_error w _); [done |]. rewrite Hrender. by eexists.
Qed.

Lemma X19_view_shows_last_message_witness :
  ∃ st',
    Earlier.graphEffect still_world true
      (EarlierUI.viewGraph
         (add_message (Message "bot" "Ashwagandha helps." "results"
                         (Some (kg_with (Some [ashwagandha; stress]) (Some [treats_stress]))))
            (add_message (Message "bot" "Older answer." "results"
                            (Some (kg_with (Some [stress]) (Some [loop_edge]))))
               initial))) = inr st' ∧
    rendered_payload st'
    = Some (Earlier.graphEffect_node <$> [ashwagandha; stress], [treats_stress]).
Proof.
  apply (X19_view_shows_last_message still_world _
           (Message "bot" "Ashwagandha helps." "results"
              (Some (kg_with (Some [ashwagandha; stress]) (Some [treats_stress])))));
    done.
Defined.

(** X20: in the earlier revision a full graph that arrives with at least
    one node and one edge reaches the renderer as it was received: the
    nodes keep their ids, labels and groups and get the size of their
    group, and the edges are the received ones, unchanged and unfiltered
    (also a self-loop or an edge to an unknown node).  An exception of the
    data set is not caught: it leaves the effect. *)
Theorem X20_earlier_full_graph_as_received w st nodes edges :
  nodes ≠ [] → edges ≠ [] →
  let st1 := Earlier.fetchFullKG w (full_reply (Some nodes) (Some edges)) st in
  added_messages st st1 = [] ∧
  (∀ m pn, dataset_error w (GraphData pn edges) = Some m →
     pn = Earlier.graphEffect_node <$> nodes →
     Earlier.graphEffect w true st1 = inl m) ∧
  ((∀ payload, renderer_error w payload = None) →
   ∃ st' pn,
     Earlier.graphEffect w true st1 = inr st' ∧
     rendered_payload st' = Some (pn, edges) ∧
     node_id <$> pn = node_id <$> nodes ∧
     Forall2 rendered_from nodes pn).
Proof.
  intros Hn He st1.
  assert (st1 = setGraphLoading false
                  (setShowGraph true
                     (setGraphType (Some "full")
                        (setFullGraphData (Some (Visualization (Some nodes) (Some edges)))
                           (setGraphLoading true st))))) as Hst1.
  { unfold st1, Earlier.fetchFullKG, Earlier.fetchFullKG_try, full_reply. simpl.
    by rewrite (length_eqb_0_cons _ Hn), (length_eqb_0_cons _ He). }
  split; [| split].
  - rewrite Hst1. unfold added_messages. simpl. by rewrite drop_all.
  - intros m pn Herr ->. rewrite Hst1.
    unfold Earlier.graphEffect, Earlier.selected. simpl.
    rewrite (length_eqb_0_cons _ Hn), (length_eqb_0_cons _ He). by rewrite Herr.
  - intros Hrender.
    destruct (Earlier_graphEffect_renders w st1 nodes edges) as (st' & Hrun & Hpay);
      try done; try by rewrite Hst1.
    exists st', (Earlier.graphEffect_node <$> nodes). split; [done |]. split; [done |].
    split.
    + rewrite <- list_fmap_compose. by apply list_fmap_ext.
    + clear. induction nodes as [| n nodes IH]; constructor; [by repeat split | done].
Qed.

Lemma X20_earlier_full_graph_as_received_witness :
  let st1 :=
    Earlier.fetchFullKG still_world
      (full_reply (Some [ashwagandha; stress]) (Some [treats_anxiety; loop_edge])) initial in
  added_messages initial st1 = [] ∧
  (∀ m pn, dataset_error still_world (GraphData pn [treats_anxiety; loop_edge]) = Some m →
     pn = Earlier.graphEffect_node <$> [ashwagandha; stress] →
     Earlier.graphEffect still_world true st1 = inl m) ∧
  ((∀ payload, renderer_error still_world payload = None) →
   ∃ st' pn,
     Earlier.graphEffect still_world true st1 = inr st' ∧
     rendered_payload st' = Some (pn, [treats_anxiety; loop_edge]) ∧
     node_id <$> pn = node_id <$> [ashwagandha; stress] ∧
     Forall2 rendered_from [ashwagandha; stress] pn).
Proof.
  apply (X20_earlier_full_graph_as_received still_world initial
           [ashwagandha; stress] [treats_anxiety; loop_edge]); done.
Defined.

Lemma Earlier_format_entities_raises es :
  (∃ m, EarlierUI.format_entities es = inl m) ↔
  ∃ e, e ∈ es ∧ EarlierUI.oe_details e = None.
Proof.
  induction es as [| e es IH]; simpl.
  - split; [by intros [m ?] | intros (e & He & _); by apply elem_of_nil in He].
  - destruct (EarlierUI.oe_details e) as [d |] eqn:Hd.
    + destruct (EarlierUI.format_entities es) as [m |] eqn:Hes.
      * split; [| by eexists]. intros _.
        destruct (proj1 IH) as (e' & He' & Hd'); [by eexists |].
        exists e'. split; [by right | done].
      * split; [by intros [m ?] |]. intros (e' & He' & Hd').
        apply elem_of_cons in He' as [-> | He']; [congruence |].
        destruct (proj2 IH) as [m Hm]; [by exists e' | done].
    + split; [| by eexists]. intros _. exists e. split; [by left | done].
Qed.

Lemma Earlier_format_relationships_raises rels :
  (∃ m, EarlierUI.format_relationships rels = inl m) ↔
  ∃ key, (key, None) ∈ rels.
Proof.
  induction rels as [| [key items] rels IH]; simpl.
  - split; [by intros [m ?] | intros (k & Hk); by apply elem_of_nil in Hk].
  - destruct items as [items |].
    + destruct (EarlierUI.format_relationships rels) as [m |] eqn:Hrels.
      * split; [| by eexists]. intros _.
        destruct (proj1 IH) as (k & Hk); [by eexists |].
        exists k. by right.
      * split; [by intros [m ?] |]. intros (k & Hk).
        apply elem_of_cons in Hk as [Hk | Hk]; [congruence |].
        destruct (proj2 IH) as [m Hm]; [by exists k | done].
    + split; [| by eexists]. intros _. exists key. by left.
Qed.

Lemma nonempty_elem {A : Type} (o : option (list A)) (x : A) :
  x ∈ default [] o → nonempty o = true.
Proof.
  destruct o as [[| y l] |]; simpl; try done; intros H; by apply elem_of_nil in H.
Qed.

(** X21: [formatResults] of the earlier revision, on a reply without
    [error].  It raises an exception exactly when the structured data lists
    an entity without [details] or a relationship whose value is no array.
    Otherwise the text begins with the response (or the stock sentence),
    taken as it is, and goes on with the sources header when there is an
    entity or a relationship, and with the note on general guidance, and
    nothing else, when there is none. *)
Theorem X21_earlier_formatResults data :
  str_truthy (EarlierUI.cd_error data) = false →
  let response := str_or (EarlierUI.cd_response data) "No response available." in
  let entities := default [] (EarlierUI.cd_kg_data data ≫= EarlierUI.kg_entities) in
  let relationships := default [] (EarlierUI.cd_kg_data data ≫= EarlierUI.kg_relationships) in
  ((∃ m, EarlierUI.formatResults data = inl m) ↔
   (∃ e, e ∈ entities ∧ EarlierUI.oe_details e = None) ∨
   (∃ key, (key, None) ∈ relationships)) ∧
  (∀ text, EarlierUI.formatResults data = inr text →
     if bool_decide (entities = []) && bool_decide (relationships = [])
     then text = response +:+ EarlierUI.general_guidance
     else ∃ rest, text = response +:+ sources_header +:+ rest).
Proof.
  intros Herr response entities relationships.
  unfold EarlierUI.formatResults. rewrite Herr. fold response.
  destruct (EarlierUI.cd_kg_data data) as [kg |] eqn:Hkg; simpl in entities, relationships.
  2: { split.
       - split; [by intros [m ?] |].
         intros [(e & He & _) | (k & Hk)]; [by apply elem_of_nil in He | by apply elem_of_nil in Hk].
       - intros text [= <-]. done. }
  pose proof (Earlier_format_entities_raises entities) as Hents.
  pose proof (Earlier_format_relationships_raises relationships) as Hrels.
  assert (nonempty (EarlierUI.kg_entities kg) = negb (bool_decide (entities = []))) as Hne.
  { unfold entities. by destruct (EarlierUI.kg_entities kg) as [[| e l] |]. }
  assert (nonempty (EarlierUI.kg_relationships kg) = negb (bool_decide (relationships = [])))
    as Hnr.
  { unfold relationships. by destruct (EarlierUI.kg_relationships kg) as [[| r l] |]. }
  rewrite Hne, Hnr. fold entities relationships.
  destruct (bool_decide (entities = [])) eqn:He;
    destruct (bool_decide (relationships = [])) eqn:Hr; simpl.
  - apply bool_decide_eq_true in He, Hr. split.
    + split; [by intros [m ?] |]. rewrite He, Hr.
      intros [(e & H & _) | (k & H)]; by apply elem_of_nil in H.
    + by intros text [= <-].
  - apply bool_decide_eq_true in He.
    destruct (EarlierUI.format_relationships relationships) as [m |] eqn:Hfr.
    + split; [| done]. split; [| by eexists]. intros _. right. apply Hrels. by eexists.
    + split.
      * split; [by intros [m ?] |]. rewrite He.
        intros [(e & H & _) | Hk]; [by apply elem_of_nil in H |].
        apply Hrels in Hk as [m Hm]. done.
      * intros text [= <-]. eexists. apply string_app_assoc.
  - apply bool_decide_eq_true in Hr.
    destruct (EarlierUI.format_entities entities) as [m |] eqn:Hfe.
    + split; [| done]. split; [| by eexists]. intros _. left. apply Hents. by eexists.
    + split.
      * split; [by intros [m ?] |]. rewrite Hr.
        intros [He' | (k & H)]; [| by apply elem_of_nil in H].
        apply Hents in He' as [m Hm]. done.
      * intros text [= <-]. eexists. apply string_app_assoc.
  - destruct (EarlierUI.format_entities entities) as [m |] eqn:Hfe.
    + split; [| done]. split; [| by eexists]. intros _. left. apply Hents. by eexists.
    + destruct (EarlierUI.format_relationships relationships) as [m |] eqn:Hfr.
      * split; [| done]. split; [| by eexists]. intros _. right. apply Hrels. by eexists.
      * split.
        -- split; [by intros [m ?] |].
           intros [He' | Hk]; [apply Hents in He' as [m Hm] | apply Hrels in Hk as [m Hm]]; done.
        -- intros text [= <-]. eexists. apply string_app_assoc.
Qed.

Lemma X21_earlier_formatResults_witness :
  let data :=
    EarlierUI.ChatData None None (Some "Ashwagandha is an **adaptogen**.") (JStr "high")
      (Some (EarlierUI.KgData
               (Some [EarlierUI.Entity "Ashwagandha" "herb" None])
               None None)) in
  let response := str_or (EarlierUI.cd_response data) "No response available." in
  let entities := default [] (EarlierUI.cd_kg_data data ≫= EarlierUI.kg_entities) in
  let relationships := default [] (EarlierUI.cd_kg_data data ≫= EarlierUI.kg_relationships) in
  ((∃ m, EarlierUI.formatResults data = inl m) ↔
   (∃ e, e ∈ entities ∧ EarlierUI.oe_details e = None) ∨
   (∃ key, (key, None) ∈ relationships)) ∧
  (∀ text, EarlierUI.formatResults data = inr text →
     if bool_decide (entities = []) && bool_decide (relationships = [])
     then text = response +:+ EarlierUI.general_guidance
     else ∃ rest, text = response +:+ sources_header +:+ rest).
Proof.
  apply (X21_earlier_formatResults
           (EarlierUI.ChatData None None (Some "Ashwagandha is an **adaptogen**.") (JStr "high")
              (Some (EarlierUI.KgData
                       (Some [EarlierUI.Entity "Ashwagandha" "herb" None])
                       None None)))).
  reflexivity.
Defined.
